(** * GoHighLevel MCP server ([api/index.js]): protocol layer

    A shallow embedding of the JSON-RPC dispatcher, of the envelope
    constructors and of the two [/sse] transports of [api/index.js],
    together with the properties of the protocol layer that the
    specification states about them.

    Conventions of the embedding.
    - A JavaScript value is a tree of type [value]; [VUndefined] is the value
      of a missing property and of an omitted argument.  Numbers are the
      integers of the safe range (what ids and error codes are); fractions
      and exponents are IEEE doubles and are outside the embedding.
    - A JavaScript string is the sequence of bytes of its UTF-8 encoding.
    - An object is the list of its own properties in insertion order (the
      engine's reordering of integer-like keys is not modelled).
    - Code that can raise returns an [outcome]; code that also writes to the
      console or reads the clock or the module-level bindings runs in the
      monad [M] over the [realm]; the handlers of the transports run in [IO]
      over a [session], which adds the response stream and the timers.
    - The messages of the engine's errors are those of V8; only their being
      carried into [data] matters to the properties.
    - HTTP routing, status lines and headers (OPTIONS, /health, 404) are
      outside the embedding. *)

From Stdlib Require Import String Ascii List ZArith Lia Bool.
From Stdlib Require Import DecimalString DecimalN.
From Stdlib Require DecimalFacts.
Import ListNotations.
Open Scope string_scope.

(** ** JavaScript values *)

#[warnings="-register-all"]
Inductive value : Type :=
| VUndefined
| VNull
| VBool (b : bool)
| VNumber (n : Z)
| VString (s : string)
| VArray (items : list value)
| VObject (props : list (string * value)).

(** The errors the engine raises; [message] is [error.message]. *)
Inductive exn : Type :=
| TypeError (msg : string)
| SyntaxError (msg : string).

Definition message (e : exn) : string :=
  match e with TypeError m => m | SyntaxError m => m end.

Inductive outcome (A : Type) : Type :=
| Return (a : A)
| Throw (e : exn).
Arguments Return {A} a.
Arguments Throw {A} e.

Definition dq : string := String "034"%char EmptyString.
Definition bs : string := String "092"%char EmptyString.
Definition nl : string := String "010"%char EmptyString.

(** *** Own properties *)

Fixpoint lookup (k : string) (props : list (string * value)) : option value :=
  match props with
  | [] => None
  | (k', v) :: rest => if String.eqb k k' then Some v else lookup k rest
  end.

Definition has_own (k : string) (props : list (string * value)) : bool :=
  match lookup k props with Some _ => true | None => false end.

(** [o.k = v] on an ordinary object: an existing property keeps its place. *)
Fixpoint obj_set (k : string) (v : value) (props : list (string * value))
  : list (string * value) :=
  match props with
  | [] => [(k, v)]
  | (k', v') :: rest =>
      if String.eqb k k' then (k', v) :: rest else (k', v') :: obj_set k v rest
  end.

Definition set_prop (o : value) (k : string) (v : value) : value :=
  match o with
  | VObject props => VObject (obj_set k v props)
  | _ => o
  end.

(** [typeof v], with the engine's wording for the two values that have no
    properties. *)
Definition typeof (v : value) : string :=
  match v with
  | VUndefined => "undefined"
  | VNull => "object"
  | VBool _ => "boolean"
  | VNumber _ => "number"
  | VString _ => "string"
  | VArray _ => "object"
  | VObject _ => "object"
  end.

Definition nullish (v : value) : bool :=
  match v with VUndefined | VNull => true | _ => false end.

(** [v.k] for a name [k] that no built-in prototype defines (every name the
    program reads: jsonrpc, id, method, params, name, arguments, query,
    type).  On [undefined] and [null] the read raises; on a primitive or an
    array there is no such property; on an object it is an own property or
    [undefined]. *)
Definition Get (v : value) (k : string) : outcome value :=
  match v with
  | VUndefined =>
      Throw (TypeError ("Cannot read properties of undefined (reading '" ++ k ++ "')"))
  | VNull =>
      Throw (TypeError ("Cannot read properties of null (reading '" ++ k ++ "')"))
  | VObject props =>
      Return (match lookup k props with Some x => x | None => VUndefined end)
  | _ => Return VUndefined
  end.

(** Truthiness, as [if (x)] and [x ? a : b] test it. *)
Definition truthy (v : value) : bool :=
  match v with
  | VUndefined | VNull => false
  | VBool b => b
  | VNumber n => negb (Z.eqb n 0)
  | VString s => negb (String.eqb s "")
  | VArray _ | VObject _ => true
  end.

(** [v === "s"] against a string literal. *)
Definition strict_eq_string (v : value) (s : string) : bool :=
  match v with VString t => String.eqb t s | _ => false end.

(** A parameter with a default value takes it when the argument is
    [undefined]. *)
Definition default_param (arg dflt : value) : value :=
  match arg with VUndefined => dflt | _ => arg end.

(** *** Conversion to string *)

Definition NumberToString (n : Z) : string :=
  match n with
  | Zneg p => "-" ++ NilEmpty.string_of_uint (N.to_uint (Npos p))
  | _ => NilEmpty.string_of_uint (N.to_uint (Z.to_N n))
  end.

(** [ToString], as a template literal applies it to each substitution.
    An array is joined with commas, [undefined] and [null] elements giving
    the empty string.  An ordinary object answers through
    [Object.prototype.toString] unless it has an own [toString] property:
    such a property, read from JSON, is never callable, [valueOf] then
    gives back the object itself, and the conversion raises. *)
Fixpoint ToString (v : value) : outcome string :=
  match v with
  | VUndefined => Return "undefined"
  | VNull => Return "null"
  | VBool true => Return "true"
  | VBool false => Return "false"
  | VNumber n => Return (NumberToString n)
  | VString s => Return s
  | VArray items =>
      (fix join (first : bool) (l : list value) : outcome string :=
         match l with
         | [] => Return ""
         | x :: l' =>
             match (if nullish x then Return "" else ToString x) with
             | Throw e => Throw e
             | Return sx =>
                 match join false l' with
                 | Throw e => Throw e
                 | Return sl => Return ((if first then "" else ",") ++ sx ++ sl)
                 end
             end
         end) true items
  | VObject props =>
      if has_own "toString" props
      then Throw (TypeError "Cannot convert object to primitive value")
      else Return "[object Object]"
  end.

(** ** [JSON.stringify] *)

Definition hex_digit (n : nat) : ascii :=
  match n with
  | 0 => "0" | 1 => "1" | 2 => "2" | 3 => "3" | 4 => "4" | 5 => "5" | 6 => "6"
  | 7 => "7" | 8 => "8" | 9 => "9" | 10 => "a" | 11 => "b" | 12 => "c"
  | 13 => "d" | 14 => "e" | _ => "f"
  end%char.

(** One character of a quoted JSON string. *)
Definition quote_char (c : ascii) : string :=
  let n := nat_of_ascii c in
  if Nat.eqb n 34 then bs ++ dq
  else if Nat.eqb n 92 then bs ++ bs
  else if Nat.eqb n 8 then bs ++ "b"
  else if Nat.eqb n 12 then bs ++ "f"
  else if Nat.eqb n 10 then bs ++ "n"
  else if Nat.eqb n 13 then bs ++ "r"
  else if Nat.eqb n 9 then bs ++ "t"
  else if Nat.ltb n 32
       then bs ++ "u00" ++ String (hex_digit (n / 16)) (String (hex_digit (n mod 16)) "")
       else String c "".

Fixpoint quote_chars (s : string) : string :=
  match s with
  | EmptyString => ""
  | String c rest => quote_char c ++ quote_chars rest
  end.

Definition QuoteJSONString (s : string) : string := dq ++ quote_chars s ++ dq.

(** [JSON.stringify v] without indentation.  [None] is the [undefined] that
    [JSON.stringify(undefined)] returns.  A property whose value is
    [undefined] is left out; an [undefined] array element is written as
    [null]. *)
Fixpoint JSON_stringify (v : value) : option string :=
  match v with
  | VUndefined => None
  | VNull => Some "null"
  | VBool true => Some "true"
  | VBool false => Some "false"
  | VNumber n => Some (NumberToString n)
  | VString s => Some (QuoteJSONString s)
  | VArray items =>
      Some ("[" ++
        (fix elements (first : bool) (l : list value) : string :=
           match l with
           | [] => ""
           | x :: l' =>
               (if first then "" else ",") ++
               match JSON_stringify x with Some t => t | None => "null" end ++
               elements false l'
           end) true items ++ "]")
  | VObject props =>
      Some ("{" ++
        (fix members (first : bool) (l : list (string * value)) : string :=
           match l with
           | [] => ""
           | (k, x) :: l' =>
               match JSON_stringify x with
               | Some t =>
                   (if first then "" else ",") ++ QuoteJSONString k ++ ":" ++ t ++
                   members false l'
               | None => members first l'
               end
           end) true props ++ "}")
  end.

(** ** The realm: module-level bindings, console and clock *)

Record realm : Type := mkRealm {
  tools : value;            (* the array bound to [const TOOLS] *)
  console : list string;    (* the lines written by [console.log] *)
  clock : string            (* [new Date().toISOString()] *)
}.

(** Code with effects on a store [W]: it returns or raises, and leaves a
    store either way. *)
Definition ST (W A : Type) : Type := W -> outcome A * W.

Definition M (A : Type) : Type := ST realm A.

Definition ret {W A} (a : A) : ST W A := fun w => (Return a, w).

Definition raise {W A} (e : exn) : ST W A := fun w => (Throw e, w).

Definition bind {W A B} (c : ST W A) (k : A -> ST W B) : ST W B :=
  fun w =>
    match c w with
    | (Return a, w') => k a w'
    | (Throw e, w') => (Throw e, w')
    end.

(** [try { c } catch (error) { h error }] *)
Definition try_catch {W A} (c : ST W A) (h : exn -> ST W A) : ST W A :=
  fun w =>
    match c w with
    | (Return a, w') => (Return a, w')
    | (Throw e, w') => h e w'
    end.

Definition lift {W A} (o : outcome A) : ST W A := fun w => (o, w).

Declare Scope js_scope.
Delimit Scope js_scope with js.
Notation "x <- c ;; k" := (bind c (fun x => k))
  (at level 61, c at next level, right associativity) : js_scope.
Notation "c ;;; k" := (bind c (fun _ => k))
  (at level 61, right associativity) : js_scope.
Open Scope js_scope.

Definition toISOString : M string := fun w => (Return (clock w), w).

Definition read_TOOLS : M value := fun w => (Return (tools w), w).

Definition console_log (line : string) : M unit :=
  fun w => (Return tt, mkRealm (tools w) (console w ++ [line]) (clock w)).

(** ** Constants of the module *)

Definition MCP_PROTOCOL_VERSION : string := "2024-11-05".

Definition SERVER_INFO : value :=
  VObject [("name", VString "ghl-mcp-server"); ("version", VString "1.0.0")].

Definition TOOLS : value :=
  VArray [
    VObject [
      ("name", VString "search");
      ("description", VString "Search for information in GoHighLevel CRM system");
      ("inputSchema", VObject [
         ("type", VString "object");
         ("properties", VObject [
            ("query", VObject [
               ("type", VString "string");
               ("description", VString "Search query for GoHighLevel data")])]);
         ("required", VArray [VString "query"])])];
    VObject [
      ("name", VString "retrieve");
      ("description", VString "Retrieve specific data from GoHighLevel");
      ("inputSchema", VObject [
         ("type", VString "object");
         ("properties", VObject [
            ("id", VObject [
               ("type", VString "string");
               ("description", VString "ID of the item to retrieve")]);
            ("type", VObject [
               ("type", VString "string");
               ("enum", VArray [VString "contact"; VString "conversation"; VString "blog"]);
               ("description", VString "Type of item to retrieve")])]);
         ("required", VArray [VString "id"; VString "type"])])]
  ].

(** The realm once the module is loaded. *)
Definition boot (now : string) : realm := mkRealm TOOLS [] now.

(** ** Envelope constructors and logging *)

Definition log (msg : string) (data : value) : M unit :=
  let data := default_param data VNull in
  timestamp <- toISOString ;;
  console_log
    ("[" ++ timestamp ++ "] [MCP] " ++ msg ++
     (if truthy data
      then ": " ++ match JSON_stringify data with Some t => t | None => "undefined" end
      else "")).

Definition createJsonRpcResponse (id result error : value) : value :=
  let result := default_param result VNull in
  let error := default_param error VNull in
  let response := VObject [("jsonrpc", VString "2.0"); ("id", id)] in
  if truthy error
  then set_prop response "error" error
  else set_prop response "result" result.

Definition createJsonRpcNotification (method params : value) : value :=
  let params := default_param params (VObject []) in
  VObject [("jsonrpc", VString "2.0"); ("method", method); ("params", params)].

(** ** Method handlers *)

Definition handleInitialize (request : value) : M value :=
  params <- lift (Get request "params") ;;
  log "Handling initialize request" params ;;;
  id <- lift (Get request "id") ;;
  ret (createJsonRpcResponse id
         (VObject [("protocolVersion", VString MCP_PROTOCOL_VERSION);
                   ("capabilities", VObject [("tools", VObject [])]);
                   ("serverInfo", SERVER_INFO)])
         VUndefined).

Definition handleToolsList (request : value) : M value :=
  log "Handling tools/list request" VUndefined ;;;
  id <- lift (Get request "id") ;;
  registry <- read_TOOLS ;;
  ret (createJsonRpcResponse id (VObject [("tools", registry)]) VUndefined).

(** [const { name, arguments: args } = source]: the source must not be
    [undefined] or [null]. *)
Definition destructure_name_arguments (source : value) : outcome (value * value) :=
  match source with
  | VUndefined =>
      Throw (TypeError
        "Cannot destructure property 'name' of 'request.params' as it is undefined.")
  | VNull =>
      Throw (TypeError
        "Cannot destructure property 'name' of 'request.params' as it is null.")
  | _ =>
      match Get source "name", Get source "arguments" with
      | Return name, Return args => Return (name, args)
      | Throw e, _ => Throw e
      | _, Throw e => Throw e
      end
  end.

Definition search_text (query : string) : string :=
  "GoHighLevel Search Results for: " ++ dq ++ query ++ dq ++ nl ++ nl ++
  "✅ Found Results:" ++ nl ++
  "• Contact: John Doe (john@example.com)" ++ nl ++
  "• Contact: Jane Smith (jane@example.com)" ++ nl ++
  "• Conversation: " ++ dq ++ "Follow-up call scheduled" ++ dq ++ nl ++
  "• Blog Post: " ++ dq ++ "How to Generate More Leads" ++ dq ++ nl ++ nl ++
  "📊 Search completed successfully in GoHighLevel CRM.".

Definition retrieve_text (type1 id type2 now : string) : string :=
  "GoHighLevel " ++ type1 ++ " Retrieved: ID " ++ id ++ nl ++ nl ++
  "📄 Details:" ++ nl ++
  "• Name: Sample " ++ type2 ++ nl ++
  "• Status: Active" ++ nl ++
  "• Last Updated: " ++ now ++ nl ++
  "• Source: GoHighLevel CRM" ++ nl ++ nl ++
  "✅ Data retrieved successfully from GoHighLevel.".

Definition text_content (text : string) : value :=
  VArray [VObject [("type", VString "text"); ("text", VString text)]].

Definition handleToolsCall (request : value) : M value :=
  params <- lift (Get request "params") ;;
  na <- lift (destructure_name_arguments params) ;;
  let name := fst na in
  let args := snd na in
  log "Handling tools/call request" (VObject [("tool", name); ("args", args)]) ;;;
  if strict_eq_string name "search" then
    query <- lift (Get args "query") ;;
    q <- lift (ToString query) ;;
    let content := text_content (search_text q) in
    id <- lift (Get request "id") ;;
    ret (createJsonRpcResponse id (VObject [("content", content)]) VUndefined)
  else if strict_eq_string name "retrieve" then
    type1 <- lift (Get args "type") ;;
    t1 <- lift (ToString type1) ;;
    item <- lift (Get args "id") ;;
    i <- lift (ToString item) ;;
    type2 <- lift (Get args "type") ;;
    t2 <- lift (ToString type2) ;;
    now <- toISOString ;;
    let content := text_content (retrieve_text t1 i t2 now) in
    id <- lift (Get request "id") ;;
    ret (createJsonRpcResponse id (VObject [("content", content)]) VUndefined)
  else
    id <- lift (Get request "id") ;;
    n <- lift (ToString name) ;;
    ret (createJsonRpcResponse id VNull
           (VObject [("code", VNumber (-32601));
                     ("message", VString ("Method not found: " ++ n))])).

Definition handlePing (request : value) : M value :=
  log "Handling ping request" VUndefined ;;;
  id <- lift (Get request "id") ;;
  ret (createJsonRpcResponse id (VObject []) VUndefined).

(** ** The dispatcher *)

Definition processJsonRpcMessage (msg : value) : M value :=
  try_catch
    (method <- lift (Get msg "method") ;;
     id <- lift (Get msg "id") ;;
     log "Processing JSON-RPC message" (VObject [("method", method); ("id", id)]) ;;;
     version <- lift (Get msg "jsonrpc") ;;
     if negb (strict_eq_string version "2.0") then
       id <- lift (Get msg "id") ;;
       ret (createJsonRpcResponse id VNull
              (VObject [("code", VNumber (-32600));
                        ("message", VString "Invalid Request: jsonrpc must be '2.0'")]))
     else
       method <- lift (Get msg "method") ;;
       if strict_eq_string method "initialize" then handleInitialize msg
       else if strict_eq_string method "tools/list" then handleToolsList msg
       else if strict_eq_string method "tools/call" then handleToolsCall msg
       else if strict_eq_string method "ping" then handlePing msg
       else
         id <- lift (Get msg "id") ;;
         m <- lift (Get msg "method") ;;
         n <- lift (ToString m) ;;
         ret (createJsonRpcResponse id VNull
                (VObject [("code", VNumber (-32601));
                          ("message", VString ("Method not found: " ++ n))])))
    (fun error =>
       log "Error processing message" (VString (message error)) ;;;
       id <- lift (Get msg "id") ;;
       ret (createJsonRpcResponse id VNull
              (VObject [("code", VNumber (-32603));
                        ("message", VString "Internal error");
                        ("data", VString (message error))]))).

(** ** [JSON.parse]

    The reader follows the JSON grammar.  [Malformed] is the [SyntaxError]
    of the engine.  [Unsupported] marks a well-started text whose value lies
    outside the embedding: a number with a fraction or an exponent, an
    integer beyond the safe range, a [\u] escape above ASCII.  Nothing is
    claimed about such a text. *)

Inductive parsed (A : Type) : Type :=
| Parsed (a : A) (rest : string)
| Malformed
| Unsupported.
Arguments Parsed {A} a rest.
Arguments Malformed {A}.
Arguments Unsupported {A}.

Definition parsed_map {A B} (f : A -> B) (p : parsed A) : parsed B :=
  match p with
  | Parsed a rest => Parsed (f a) rest
  | Malformed => Malformed
  | Unsupported => Unsupported
  end.

Definition is_ws (c : ascii) : bool :=
  let n := nat_of_ascii c in
  Nat.eqb n 32 || Nat.eqb n 9 || Nat.eqb n 10 || Nat.eqb n 13.

Fixpoint skip_ws (s : string) : string :=
  match s with
  | EmptyString => EmptyString
  | String c r => if is_ws c then skip_ws r else s
  end.

Definition digit_of (c : ascii) : option (Decimal.uint -> Decimal.uint) :=
  match c with
  | "0" => Some Decimal.D0 | "1" => Some Decimal.D1 | "2" => Some Decimal.D2
  | "3" => Some Decimal.D3 | "4" => Some Decimal.D4 | "5" => Some Decimal.D5
  | "6" => Some Decimal.D6 | "7" => Some Decimal.D7 | "8" => Some Decimal.D8
  | "9" => Some Decimal.D9 | _ => None
  end%char.

Definition is_digit (c : ascii) : bool :=
  match digit_of c with Some _ => true | None => false end.

(** The longest run of decimal digits at the head of [s]. *)
Fixpoint read_digits (s : string) : Decimal.uint * string :=
  match s with
  | EmptyString => (Decimal.Nil, EmptyString)
  | String c r =>
      match digit_of c with
      | Some d => let (u, r') := read_digits r in (d u, r')
      | None => (Decimal.Nil, s)
      end
  end.

Definition safe_integer (n : Z) : bool :=
  (Z.leb (- 9007199254740992) n && Z.leb n 9007199254740992)%bool.

Definition starts_fraction_or_exponent (s : string) : bool :=
  match s with
  | String c _ => Ascii.eqb c "." || Ascii.eqb c "e" || Ascii.eqb c "E"
  | EmptyString => false
  end.

Definition split_sign (s : string) : bool * string :=
  match s with
  | String "-" r => (true, r)
  | _ => (false, s)
  end.

(** A zero followed by more digits. *)
Definition leading_zero (u : Decimal.uint) : bool :=
  match u with
  | Decimal.D0 Decimal.Nil => false
  | Decimal.D0 _ => true
  | _ => false
  end.

Definition parse_number (s : string) : parsed value :=
  let (negative, body) := split_sign s in
  let (u, rest) := read_digits body in
  match u with
  | Decimal.Nil => Malformed
  | _ =>
      if leading_zero u then Malformed
      else if starts_fraction_or_exponent rest then Unsupported
      else
        let n := Z.of_N (N.of_uint u) in
        let z := if negative then Z.opp n else n in
        if safe_integer z then Parsed (VNumber z) rest else Unsupported
  end.

Definition hex_of (c : ascii) : option nat :=
  let n := nat_of_ascii c in
  if Nat.leb 48 n && Nat.leb n 57 then Some (n - 48)
  else if Nat.leb 97 n && Nat.leb n 102 then Some (n - 87)
  else if Nat.leb 65 n && Nat.leb n 70 then Some (n - 55)
  else None.

Definition hex4 (a b c d : ascii) : option nat :=
  match hex_of a, hex_of b, hex_of c, hex_of d with
  | Some x, Some y, Some z, Some t => Some (((x * 16 + y) * 16 + z) * 16 + t)
  | _, _, _, _ => None
  end.

Definition simple_escape (c : ascii) : option ascii :=
  match c with
  | "034" => Some "034" | "092" => Some "092" | "/" => Some "/"
  | "b" => Some "008" | "f" => Some "012" | "n" => Some "010"
  | "r" => Some "013" | "t" => Some "009" | _ => None
  end%char.

(** The characters of a string literal, after its opening quote. *)
Fixpoint read_string (s : string) : parsed string :=
  match s with
  | EmptyString => Malformed
  | String c r =>
      let n := nat_of_ascii c in
      if Nat.eqb n 34 then Parsed EmptyString r
      else if Nat.eqb n 92 then
        match r with
        | EmptyString => Malformed
        | String e r' =>
            match simple_escape e with
            | Some ch => parsed_map (String ch) (read_string r')
            | None =>
                if Ascii.eqb e "u" then
                  match r' with
                  | String h1 (String h2 (String h3 (String h4 r''))) =>
                      match hex4 h1 h2 h3 h4 with
                      | Some cp =>
                          if Nat.ltb cp 128
                          then parsed_map (String (ascii_of_nat cp)) (read_string r'')
                          else Unsupported
                      | None => Malformed
                      end
                  | _ => Malformed
                  end
                else Malformed
            end
        end
      else if Nat.ltb n 32 then Malformed
      else parsed_map (String c) (read_string r)
  end.

Fixpoint strip_prefix (p s : string) : option string :=
  match p, s with
  | EmptyString, _ => Some s
  | String a p', String b s' => if Ascii.eqb a b then strip_prefix p' s' else None
  | String _ _, EmptyString => None
  end.

(** The object a list of members denotes: a repeated key keeps its first
    place and takes its last value. *)
Definition build_object (members : list (string * value)) : value :=
  VObject (fold_left (fun o kv => obj_set (fst kv) (snd kv) o) members []).

(** The reader proper.  [fuel] bounds the depth of the calls; the length of
    the text is enough of it. *)
Fixpoint parse_value (fuel : nat) (s : string) : parsed value :=
  match fuel with
  | O => Unsupported
  | S fuel' =>
      match skip_ws s with
      | EmptyString => Malformed
      | String c r =>
          if Ascii.eqb c "{" then
            match skip_ws r with
            | EmptyString => Malformed
            | String c' r' =>
                if Ascii.eqb c' "}" then Parsed (VObject []) r'
                else parsed_map build_object (parse_members fuel' r)
            end
          else if Ascii.eqb c "[" then
            match skip_ws r with
            | EmptyString => Malformed
            | String c' r' =>
                if Ascii.eqb c' "]" then Parsed (VArray []) r'
                else parsed_map VArray (parse_elements fuel' r)
            end
          else if Ascii.eqb c "034" then parsed_map VString (read_string r)
          else if Ascii.eqb c "-" || is_digit c then parse_number (String c r)
          else
            match strip_prefix "true" (String c r) with
            | Some r' => Parsed (VBool true) r'
            | None =>
                match strip_prefix "false" (String c r) with
                | Some r' => Parsed (VBool false) r'
                | None =>
                    match strip_prefix "null" (String c r) with
                    | Some r' => Parsed VNull r'
                    | None => Malformed
                    end
                end
            end
      end
  end

with parse_elements (fuel : nat) (s : string) : parsed (list value) :=
  match fuel with
  | O => Unsupported
  | S fuel' =>
      match parse_value fuel' s with
      | Parsed v r =>
          match skip_ws r with
          | EmptyString => Malformed
          | String c r' =>
              if Ascii.eqb c "," then parsed_map (cons v) (parse_elements fuel' r')
              else if Ascii.eqb c "]" then Parsed [v] r'
              else Malformed
          end
      | Malformed => Malformed
      | Unsupported => Unsupported
      end
  end

with parse_members (fuel : nat) (s : string) : parsed (list (string * value)) :=
  match fuel with
  | O => Unsupported
  | S fuel' =>
      match skip_ws s with
      | EmptyString => Malformed
      | String q r =>
          if Ascii.eqb q "034" then
            match read_string r with
            | Parsed k r1 =>
                match skip_ws r1 with
                | EmptyString => Malformed
                | String colon r2 =>
                    if Ascii.eqb colon ":" then
                      match parse_value fuel' r2 with
                      | Parsed v r3 =>
                          match skip_ws r3 with
                          | EmptyString => Malformed
                          | String c r4 =>
                              if Ascii.eqb c "," then
                                parsed_map (cons (k, v)) (parse_members fuel' r4)
                              else if Ascii.eqb c "}" then Parsed [(k, v)] r4
                              else Malformed
                          end
                      | Malformed => Malformed
                      | Unsupported => Unsupported
                      end
                    else Malformed
                end
            | Malformed => Malformed
            | Unsupported => Unsupported
            end
          else Malformed
      end
  end.

(** [JSON.parse text]: [None] when the text is outside the embedding,
    otherwise the value, or the [SyntaxError] raised. *)
Definition JSON_parse (text : string) : option (outcome value) :=
  match parse_value (S (String.length text)) text with
  | Parsed v rest =>
      match skip_ws rest with
      | EmptyString => Some (Return v)
      | String _ _ => Some (Throw (SyntaxError "Unexpected non-whitespace character after JSON"))
      end
  | Malformed => Some (Throw (SyntaxError "Unexpected token in JSON"))
  | Unsupported => None
  end.

(** ** The transport: response stream, timers and listeners

    One request is served by one [session].  Time is virtual, in
    milliseconds since the request was accepted; a timer fires at its due
    time, and no earlier timer is left behind.  The response stream keeps
    every chunk passed to [res.write], each with a flag telling whether the
    stream was still up (neither ended by [res.end()] nor torn down by the
    peer) when it was written.  Status line and headers are not modelled. *)

Inductive callback : Type :=
| ToolsChanged                 (* GET: the notification delayed by 100 ms *)
| HeartbeatTick                (* GET: the heartbeat, every 25 s *)
| AutoClose (heartbeat : nat)  (* GET: the 50 s timer; it holds the interval's handle *)
| DrainEnd.                    (* POST: [res.end()] after 2.5 s *)

Record timer : Type := mkTimer {
  handle : nat;
  due : Z;
  period : option Z;           (* [Some p] for [setInterval], [None] for [setTimeout] *)
  action : callback
}.

(** The listeners that GET /sse registers on the request. *)
Inductive listener : Type :=
| OnClose (heartbeat : nat)
| OnError (heartbeat : nat).

Record session : Type := mkSession {
  world : realm;
  now : Z;
  written : list (bool * string);
  ended : bool;                (* [res.end()] has been called *)
  torn_down : bool;            (* the request emitted 'close' or 'error' *)
  timers : list timer;
  listeners : list listener;
  next_handle : nat
}.

Definition IO (A : Type) : Type := ST session A.

Definition accept (w : realm) : session :=
  mkSession w 0 [] false false [] [] 1.

Definition stream_closed (s : session) : bool := ended s || torn_down s.

Definition in_realm {A} (c : M A) : IO A :=
  fun s =>
    let (o, w') := c (world s) in
    (o, mkSession w' (now s) (written s) (ended s) (torn_down s)
                  (timers s) (listeners s) (next_handle s)).

Definition res_write (chunk : string) : IO unit :=
  fun s =>
    (Return tt,
     mkSession (world s) (now s)
               (written s ++ [(negb (stream_closed s), chunk)])
               (ended s) (torn_down s) (timers s) (listeners s) (next_handle s)).

Definition res_end : IO unit :=
  fun s =>
    (Return tt,
     mkSession (world s) (now s) (written s) true (torn_down s)
               (timers s) (listeners s) (next_handle s)).

Definition set_timer (p : option Z) (cb : callback) (delay : Z) : IO nat :=
  fun s =>
    (Return (next_handle s),
     mkSession (world s) (now s) (written s) (ended s) (torn_down s)
               (timers s ++ [mkTimer (next_handle s) (now s + delay) p cb])
               (listeners s) (S (next_handle s))).

Definition setTimeout (cb : callback) (delay : Z) : IO nat :=
  set_timer None cb delay.

Definition setInterval (cb : callback) (delay : Z) : IO nat :=
  set_timer (Some delay) cb delay.

Definition clearInterval (h : nat) : IO unit :=
  fun s =>
    (Return tt,
     mkSession (world s) (now s) (written s) (ended s) (torn_down s)
               (filter (fun t => negb (Nat.eqb (handle t) h)) (timers s))
               (listeners s) (next_handle s)).

Definition req_on (l : listener) : IO unit :=
  fun s =>
    (Return tt,
     mkSession (world s) (now s) (written s) (ended s) (torn_down s)
               (timers s) (listeners s ++ [l]) (next_handle s)).

Definition heartbeat_frame : string := ": heartbeat" ++ nl ++ nl.

Definition sendSSE (data : value) : IO unit :=
  try_catch
    (let msg :=
       match data with
       | VString s => s
       | _ => match JSON_stringify data with Some t => t | None => "undefined" end
       end in
     res_write ("data: " ++ msg ++ nl ++ nl) ;;;
     in_realm (log "Sent SSE message" (VObject [("type", VString (typeof data))])))
    (fun error => in_realm (log "Error sending SSE" (VString (message error)))).

(** *** GET /sse *)

Definition GET_sse : IO unit :=
  sendSSE (createJsonRpcNotification (VString "notification/initialized") (VObject [])) ;;;
  _ <- setTimeout ToolsChanged 100 ;;
  heartbeat <- setInterval HeartbeatTick 25000 ;;
  req_on (OnClose heartbeat) ;;;
  req_on (OnError heartbeat) ;;;
  _ <- setTimeout (AutoClose heartbeat) 50000 ;;
  ret tt.

Definition run_callback (cb : callback) : IO unit :=
  match cb with
  | ToolsChanged =>
      sendSSE (createJsonRpcNotification
                 (VString "notification/tools/list_changed") (VObject []))
  | HeartbeatTick => res_write heartbeat_frame
  | AutoClose heartbeat =>
      clearInterval heartbeat ;;;
      res_end ;;;
      in_realm (log "SSE connection auto-closed after timeout" VUndefined)
  | DrainEnd =>
      res_end ;;;
      in_realm (log "✅ JSON-RPC SSE response sent and connection closed" VUndefined)
  end.

Definition run_listener_close (l : listener) : IO unit :=
  match l with
  | OnClose heartbeat =>
      clearInterval heartbeat ;;;
      in_realm (log "SSE connection closed" VUndefined)
  | OnError _ => ret tt
  end.

Definition run_listener_error (error : exn) (l : listener) : IO unit :=
  match l with
  | OnError heartbeat =>
      clearInterval heartbeat ;;;
      in_realm (log "SSE connection error" (VString (message error)))
  | OnClose _ => ret tt
  end.

Fixpoint run_all (cs : list (IO unit)) : IO unit :=
  match cs with
  | [] => ret tt
  | c :: rest => c ;;; run_all rest
  end.

Definition tear_down (s : session) : session :=
  mkSession (world s) (now s) (written s) (ended s) true
            (timers s) (listeners s) (next_handle s).

(** The peer goes away: the request emits 'close'. *)
Definition emit_close (s : session) : session :=
  let s1 := tear_down s in
  snd (run_all (map run_listener_close (listeners s1)) s1).

(** The request stream fails: the request emits 'error'. *)
Definition emit_error (error : exn) (s : session) : session :=
  let s1 := tear_down s in
  snd (run_all (map (run_listener_error error) (listeners s1)) s1).

(** *** The timer phase of the event loop *)

Definition rearm (t : timer) (at_time : Z) (ts : list timer) : list timer :=
  match period t with
  | None => filter (fun t' => negb (Nat.eqb (handle t') (handle t))) ts
  | Some p =>
      map (fun t' =>
             if Nat.eqb (handle t') (handle t)
             then mkTimer (handle t') (at_time + p) (period t') (action t')
             else t') ts
  end.

(** Timer [t] fires: the clock reaches its due time, a one-shot timer is
    dropped and an interval is armed again, then the callback runs. *)
Definition fire_timer (t : timer) (s : session) : session :=
  let at_time := Z.max (now s) (due t) in
  let s1 := mkSession (world s) at_time (written s) (ended s) (torn_down s)
                      (rearm t at_time (timers s)) (listeners s) (next_handle s) in
  snd (run_callback (action t) s1).

(** The pending timer that is due first, the older one on a tie. *)
Fixpoint earliest (ts : list timer) : option timer :=
  match ts with
  | [] => None
  | t :: rest =>
      match earliest rest with
      | Some t' => if Z.ltb (due t') (due t) then Some t' else Some t
      | None => Some t
      end
  end.

Definition fire_next (s : session) : option session :=
  match earliest (timers s) with
  | Some t => Some (fire_timer t s)
  | None => None
  end.

Fixpoint fire_many (n : nat) (s : session) : session :=
  match n with
  | O => s
  | S n' => match fire_next s with Some s' => fire_many n' s' | None => s end
  end.

(** What can happen to a session: a timer that is due no later than any
    other fires, or the request emits 'close' or 'error'. *)
Inductive step : session -> session -> Prop :=
| step_fire (s : session) (t : timer) :
    In t (timers s) ->
    (forall t', In t' (timers s) -> (due t <= due t')%Z) ->
    step s (fire_timer t s)
| step_close (s : session) : step s (emit_close s)
| step_error (s : session) (error : exn) : step s (emit_error error s).

Inductive steps : session -> session -> Prop :=
| steps_refl (s : session) : steps s s
| steps_cons (s1 s2 s3 : session) : step s1 s2 -> steps s2 s3 -> steps s1 s3.

(** *** POST /sse *)

Definition parse_error_response : value :=
  createJsonRpcResponse VNull VNull
    (VObject [("code", VNumber (-32700)); ("message", VString "Parse error")]).

(** The 'end' listener, given what [JSON.parse(body)] did. *)
Definition POST_end (json : outcome value) : IO unit :=
  try_catch
    (json <- lift json ;;
     response <- in_realm (processJsonRpcMessage json) ;;
     sendSSE response ;;;
     _ <- setTimeout DrainEnd 2500 ;;
     ret tt)
    (fun error =>
       sendSSE parse_error_response ;;;
       res_end).

(** POST /sse with the request body received in [chunks].  [None] when the
    body is a JSON text outside the embedding. *)
Definition POST_sse (chunks : list string) (s : session) : option session :=
  let body := fold_left (fun body chunk => body ++ chunk) chunks "" in
  match JSON_parse body with
  | Some json => Some (snd (POST_end json s))
  | None => None
  end.

(** The dispatcher applied to a sequence of messages, one after the other,
    in the same realm. *)
Fixpoint serve (msgs : list value) (w : realm) : list (outcome value) * realm :=
  match msgs with
  | [] => ([], w)
  | m :: rest =>
      let (o, w1) := processJsonRpcMessage m w in
      let (os, w2) := serve rest w1 in
      (o :: os, w2)
  end.

(** ** Vocabulary of the statements *)

(** The value of [v.k] when the read does not raise. *)
Definition field (v : value) (k : string) : value :=
  match Get v k with Return x => x | Throw _ => VUndefined end.

Definition result_response (id result : value) : value :=
  VObject [("jsonrpc", VString "2.0"); ("id", id); ("result", result)].

Definition error_response (id : value) (code : Z) (msg : string) : value :=
  VObject [("jsonrpc", VString "2.0"); ("id", id);
           ("error", VObject [("code", VNumber code); ("message", VString msg)])].

Definition internal_error_response (id : value) (description : string) : value :=
  VObject [("jsonrpc", VString "2.0"); ("id", id);
           ("error", VObject [("code", VNumber (-32603));
                              ("message", VString "Internal error");
                              ("data", VString description)])].

(** A response envelope for [id]: version, id, and exactly one of
    [result] and [error]. *)
Definition response_for (id : value) (r : value) : Prop :=
  exists (k : string) (body : value),
    r = VObject [("jsonrpc", VString "2.0"); ("id", id); (k, body)] /\
    (k = "result" \/ k = "error").

Definition has_field (v : value) (k : string) : bool :=
  match v with VObject props => has_own k props | _ => false end.

(** The realm after [log msg data]. *)
Definition logged (msg : string) (data : value) (w : realm) : realm :=
  snd (log msg data w).

(** The [switch] of the dispatcher. *)
Definition route (msg : value) : M value :=
  method <- lift (Get msg "method") ;;
  if strict_eq_string method "initialize" then handleInitialize msg
  else if strict_eq_string method "tools/list" then handleToolsList msg
  else if strict_eq_string method "tools/call" then handleToolsCall msg
  else if strict_eq_string method "ping" then handlePing msg
  else
    id <- lift (Get msg "id") ;;
    m <- lift (Get msg "method") ;;
    n <- lift (ToString m) ;;
    ret (createJsonRpcResponse id VNull
           (VObject [("code", VNumber (-32601));
                     ("message", VString ("Method not found: " ++ n))])).

(** The [catch] clause of the dispatcher, applied to what the [try] block
    did, for a message whose [id] can be read. *)
Definition recover (msg : value) (r : outcome value * realm) : outcome value * realm :=
  match r with
  | (Return a, w) => (Return a, w)
  | (Throw e, w) =>
      (Return (internal_error_response (field msg "id") (message e)),
       logged "Error processing message" (VString (message e)) w)
  end.

Definition valid_version (msg : value) : bool :=
  strict_eq_string (field msg "jsonrpc") "2.0".

Definition known_method (m : value) : bool :=
  strict_eq_string m "initialize" || strict_eq_string m "tools/list" ||
  strict_eq_string m "tools/call" || strict_eq_string m "ping".

Definition registered_tool (name : value) : bool :=
  strict_eq_string name "search" || strict_eq_string name "retrieve".

Definition processing_entry (msg : value) : value :=
  VObject [("method", field msg "method"); ("id", field msg "id")].

(** Sample messages. *)

Definition request (id : value) (method : string) (params : value) : value :=
  VObject [("jsonrpc", VString "2.0"); ("id", id);
           ("method", VString method); ("params", params)].

Definition notification_ping : value :=
  VObject [("jsonrpc", VString "2.0"); ("method", VString "ping")].

Definition call_unprintable_tool : value :=
  request (VNumber 1) "tools/call"
    (VObject [("name", VObject [("toString", VNumber 0)])]).

Definition call_search_no_arguments : value :=
  request (VNumber 7) "tools/call" (VObject [("name", VString "search")]).

(** What a handler returns, when it returns, is a response for the id of
    the message. *)
Definition answers (msg : value) (o : outcome value) : Prop :=
  match o with
  | Return r => response_for (field msg "id") r
  | Throw _ => True
  end.

(** A computation that leaves the binding [TOOLS] as it found it. *)
Definition keeps_tools {A} (c : M A) : Prop :=
  forall w, tools (snd (c w)) = tools w.

(** The frame that carries [text], and the text [sendSSE] puts in it. *)
Definition frame (text : string) : string := "data: " ++ text ++ nl ++ nl.

Definition sse_payload (data : value) : string :=
  match data with
  | VString s => s
  | _ => match JSON_stringify data with Some t => t | None => "undefined" end
  end.

(** The body of a POST, from the chunks of the 'data' events. *)
Definition body_of (chunks : list string) : string :=
  fold_left (fun body chunk => body ++ chunk) chunks "".

Definition parse_error_text : string :=
  "{" ++ dq ++ "jsonrpc" ++ dq ++ ":" ++ dq ++ "2.0" ++ dq ++ "," ++
  dq ++ "id" ++ dq ++ ":null," ++
  dq ++ "error" ++ dq ++ ":{" ++ dq ++ "code" ++ dq ++ ":-32700," ++
  dq ++ "message" ++ dq ++ ":" ++ dq ++ "Parse error" ++ dq ++ "}}".

Definition notification_ping_text : string :=
  "{" ++ dq ++ "jsonrpc" ++ dq ++ ":" ++ dq ++ "2.0" ++ dq ++ "," ++
  dq ++ "method" ++ dq ++ ":" ++ dq ++ "ping" ++ dq ++ "}".

Definition empty_result_text : string :=
  "{" ++ dq ++ "jsonrpc" ++ dq ++ ":" ++ dq ++ "2.0" ++ dq ++ "," ++
  dq ++ "result" ++ dq ++ ":{}}".

Definition tools_changed_text : string :=
  "{" ++ dq ++ "jsonrpc" ++ dq ++ ":" ++ dq ++ "2.0" ++ dq ++ "," ++
  dq ++ "method" ++ dq ++ ":" ++ dq ++ "notification/tools/list_changed" ++ dq ++ "," ++
  dq ++ "params" ++ dq ++ ":{}}".

Definition is_heartbeat (t : timer) : bool :=
  match action t with HeartbeatTick => true | _ => false end.

(** What holds of a GET /sse session at every moment: the listeners and the
    auto-close timer hold the handle of the one heartbeat interval, no timer
    of POST is present, and a closed stream has no heartbeat pending. *)
Record get_session (s : session) : Prop := {
  gs_handle :
    exists h : nat,
      listeners s = [OnClose h; OnError h] /\
      (forall t, In t (timers s) -> is_heartbeat t = true -> handle t = h) /\
      (forall t h', In t (timers s) -> action t = AutoClose h' -> h' = h);
  gs_no_drain : forall t, In t (timers s) -> action t <> DrainEnd;
  gs_closed :
    stream_closed s = true -> forall t, In t (timers s) -> is_heartbeat t = false
}.

(** The chunks written between two moments of a session. *)
Definition written_since (s s' : session) (later : list (bool * string)) : Prop :=
  written s' = (written s ++ later)%list.

(** A step of a transport that leaves the binding [TOOLS] as it found it. *)
Definition keeps_registry {A} (c : IO A) : Prop :=
  forall s, tools (world (snd (c s))) = tools (world s).

(** *** Vocabulary of the round trip *)

Fixpoint distinct (ks : list string) : bool :=
  match ks with
  | [] => true
  | k :: rest => negb (existsb (String.eqb k) rest) && distinct rest
  end.

(** The values [JSON.parse] returns: no [undefined] anywhere, integers of
    the safe range, and objects whose keys are distinct. *)
Fixpoint json_value (v : value) : bool :=
  match v with
  | VUndefined => false
  | VNull | VBool _ | VString _ => true
  | VNumber n => safe_integer n
  | VArray items =>
      (fix all (l : list value) : bool :=
         match l with
         | [] => true
         | x :: l' => json_value x && all l'
         end) items
  | VObject props =>
      distinct (map fst props) &&
      (fix all (l : list (string * value)) : bool :=
         match l with
         | [] => true
         | (_, x) :: l' => json_value x && all l'
         end) props
  end.

(** The text of a value, as it stands inside an array or as a member. *)
Definition json_text (v : value) : string :=
  match JSON_stringify v with Some t => t | None => "null" end.

Fixpoint elements_text (first : bool) (l : list value) : string :=
  match l with
  | [] => ""
  | x :: l' => (if first then "" else ",") ++ json_text x ++ elements_text false l'
  end.

Fixpoint members_text (first : bool) (l : list (string * value)) : string :=
  match l with
  | [] => ""
  | (k, x) :: l' =>
      match JSON_stringify x with
      | Some t =>
          (if first then "" else ",") ++ QuoteJSONString k ++ ":" ++ t ++
          members_text false l'
      | None => members_text first l'
      end
  end.

(** Fuel that the reader needs for the text of a value. *)
Fixpoint fuel_of (v : value) : nat :=
  match v with
  | VArray items =>
      S ((fix sum (l : list value) : nat :=
            match l with
            | [] => 0
            | x :: l' => S (fuel_of x + sum l')
            end) items)
  | VObject props =>
      S ((fix sum (l : list (string * value)) : nat :=
            match l with
            | [] => 0
            | (_, x) :: l' => S (fuel_of x + sum l')
            end) props)
  | _ => 1
  end.

(** What may follow the text of a value: nothing that would extend a
    number. *)
Definition delimited (rest : string) : bool :=
  match rest with
  | EmptyString => true
  | String c _ => negb (is_digit c) && negb (starts_fraction_or_exponent rest)
  end.

Definition no_digit_ahead (rest : string) : Prop :=
  match rest with
  | EmptyString => True
  | String c _ => is_digit c = false
  end.

(** The first character of the text of a value starts a value. *)
Definition value_start (c : ascii) : bool :=
  negb (is_ws c) && negb (Ascii.eqb c "]") && negb (Ascii.eqb c "}").

(** The reader, given enough fuel, reads the text of [v] back as [v] and
    stops where the text stops. *)
Definition reads_back (v : value) : Prop :=
  json_value v = true ->
  forall (fuel : nat) (rest : string),
    fuel_of v <= fuel -> delimited rest = true ->
    parse_value fuel (json_text v ++ rest) = Parsed v rest.

Fixpoint elements_fuel (l : list value) : nat :=
  match l with
  | [] => 0
  | x :: l' => S (fuel_of x + elements_fuel l')
  end.

Fixpoint members_fuel (l : list (string * value)) : nat :=
  match l with
  | [] => 0
  | (_, x) :: l' => S (fuel_of x + members_fuel l')
  end.

Definition member_text (k : string) (x : value) (tail : string) : string :=
  String "034" (quote_chars k ++ dq ++ String ":" (json_text x ++ tail)).

(** The length of the text of [v] is fuel enough to read it. *)
Definition text_covers_fuel (v : value) : Prop :=
  json_value v = true -> fuel_of v <= String.length (json_text v).

(** An argument of a call: a value of JSON, or omitted. *)
Definition json_argument (v : value) : bool :=
  match v with VUndefined => true | _ => json_value v end.

(** * Properties *)

(** ** Reads, logging and the shape of responses *)

Lemma Get_field (v : value) (k : string) :
  nullish v = false -> Get v k = Return (field v k).
Proof. destruct v; simpl; intros H; try discriminate; reflexivity. Qed.

Lemma field_not_nullish (v : value) (k : string) (s : string) :
  field v k = VString s -> nullish v = false.
Proof. destruct v; try reflexivity; discriminate. Qed.

Lemma log_returns (msg : string) (data : value) (w : realm) :
  log msg data w = (Return tt, logged msg data w).
Proof. reflexivity. Qed.

Lemma destructure_defined (source : value) :
  nullish source = false ->
  destructure_name_arguments source =
    Return (field source "name", field source "arguments").
Proof. destruct source; intros H; try discriminate; reflexivity. Qed.

Lemma create_is_response (id result error : value) :
  response_for id (createJsonRpcResponse id result error).
Proof.
  unfold createJsonRpcResponse, response_for.
  destruct (truthy (default_param error VNull)); eexists; eexists;
    (split; [reflexivity | auto]).
Qed.

Lemma result_response_for (id body : value) :
  response_for id (result_response id body).
Proof. exists "result", body. auto. Qed.

Lemma error_response_for (id : value) (code : Z) (msg : string) :
  response_for id (error_response id code msg).
Proof. eexists; eexists; split; [reflexivity | auto]. Qed.

Lemma internal_error_response_for (id : value) (description : string) :
  response_for id (internal_error_response id description).
Proof. eexists; eexists; split; [reflexivity | auto]. Qed.

Lemma response_for_id (id r : value) : response_for id r -> field r "id" = id.
Proof. intros (k & body & -> & _). reflexivity. Qed.

Lemma response_for_exactly_one (id r : value) :
  response_for id r -> xorb (has_field r "result") (has_field r "error") = true.
Proof. intros (k & body & -> & [-> | ->]); reflexivity. Qed.

(** ** The dispatcher on a message that is not [null] *)

Lemma process_invalid (msg : value) (w : realm) :
  nullish msg = false ->
  valid_version msg = false ->
  processJsonRpcMessage msg w =
    (Return (error_response (field msg "id") (-32600)
               "Invalid Request: jsonrpc must be '2.0'"),
     logged "Processing JSON-RPC message" (processing_entry msg) w).
Proof.
  intros Hn Hv. unfold processJsonRpcMessage, try_catch, bind, lift.
  rewrite !(Get_field msg) by assumption.
  rewrite log_returns. unfold valid_version in Hv. rewrite Hv. reflexivity.
Qed.

Lemma process_valid (msg : value) (w : realm) :
  nullish msg = false ->
  valid_version msg = true ->
  processJsonRpcMessage msg w =
    recover msg
      (route msg (logged "Processing JSON-RPC message" (processing_entry msg) w)).
Proof.
  intros Hn Hv. unfold processJsonRpcMessage, try_catch, recover, route, processing_entry.
  unfold bind at 1 2 3 4. unfold lift at 1 2 3.
  rewrite !(Get_field msg) by assumption.
  unfold valid_version in Hv. rewrite log_returns, Hv. cbn [negb].
  match goal with
  | |- context [bind ?c ?k ?w] => destruct (bind c k w) as [[r|e] w']
  end.
  - reflexivity.
  - unfold bind, lift. rewrite log_returns. reflexivity.
Qed.

Lemma handlePing_returns (msg : value) (w : realm) :
  nullish msg = false ->
  handlePing msg w =
    (Return (result_response (field msg "id") (VObject [])),
     logged "Handling ping request" VUndefined w).
Proof.
  intros Hn. unfold handlePing, bind, lift.
  rewrite log_returns, (Get_field msg) by assumption. reflexivity.
Qed.

Lemma handleToolsList_returns (msg : value) (w : realm) :
  nullish msg = false ->
  handleToolsList msg w =
    (Return (result_response (field msg "id") (VObject [("tools", tools w)])),
     logged "Handling tools/list request" VUndefined w).
Proof.
  intros Hn. unfold handleToolsList, bind, lift.
  rewrite log_returns, (Get_field msg) by assumption. reflexivity.
Qed.

Lemma handleInitialize_returns (msg : value) (w : realm) :
  nullish msg = false ->
  handleInitialize msg w =
    (Return (result_response (field msg "id")
               (VObject [("protocolVersion", VString MCP_PROTOCOL_VERSION);
                         ("capabilities", VObject [("tools", VObject [])]);
                         ("serverInfo", SERVER_INFO)])),
     logged "Handling initialize request" (field msg "params") w).
Proof.
  intros Hn. unfold handleInitialize, bind, lift.
  rewrite !(Get_field msg) by assumption. rewrite log_returns. reflexivity.
Qed.

Lemma handleToolsCall_answers (msg : value) (w : realm) :
  nullish msg = false -> answers msg (fst (handleToolsCall msg w)).
Proof.
  intros Hn. unfold handleToolsCall, bind, lift.
  rewrite !(Get_field msg) by assumption.
  destruct (destructure_name_arguments _) as [[name args]|e]; [|exact I].
  rewrite log_returns. cbn [fst snd].
  repeat match goal with
  | |- context [if ?b then _ else _] => destruct b
  | |- context [match Get ?a ?k with _ => _ end] => destruct (Get a k)
  | |- context [match ToString ?a with _ => _ end] => destruct (ToString a)
  end; cbn [fst snd toISOString ret answers]; try exact I; apply create_is_response.
Qed.

Lemma route_answers (msg : value) (w : realm) :
  nullish msg = false -> answers msg (fst (route msg w)).
Proof.
  intros Hn. unfold route. unfold bind at 1. unfold lift at 1.
  rewrite (Get_field msg) by assumption.
  destruct (strict_eq_string _ "initialize").
  { rewrite handleInitialize_returns by assumption. apply result_response_for. }
  destruct (strict_eq_string _ "tools/list").
  { rewrite handleToolsList_returns by assumption. apply result_response_for. }
  destruct (strict_eq_string _ "tools/call").
  { apply handleToolsCall_answers, Hn. }
  destruct (strict_eq_string _ "ping").
  { rewrite handlePing_returns by assumption. apply result_response_for. }
  unfold bind, lift. rewrite !(Get_field msg) by assumption.
  destruct (ToString _); cbn [fst ret answers]; [apply create_is_response | exact I].
Qed.

Lemma recover_returns (msg : value) (r : outcome value * realm) :
  answers msg (fst r) ->
  exists response,
    fst (recover msg r) = Return response /\ response_for (field msg "id") response.
Proof.
  destruct r as [[a|e] w']; cbn; intros H.
  - exists a. split; [reflexivity | exact H].
  - eexists. split; [reflexivity | apply internal_error_response_for].
Qed.

(** Away from [null], the dispatcher always returns a response envelope
    for the id of the message. *)
Lemma process_answers (msg : value) (w : realm) :
  nullish msg = false ->
  exists response,
    fst (processJsonRpcMessage msg w) = Return response /\
    response_for (field msg "id") response.
Proof.
  intros Hn. destruct (valid_version msg) eqn:Hv.
  - rewrite process_valid by assumption. apply recover_returns, route_answers, Hn.
  - rewrite process_invalid by assumption. eexists.
    split; [reflexivity | apply error_response_for].
Qed.

(** An exception raised by a handler becomes the InternalError response,
    its description in [data]. *)
Lemma handler_failure_is_internal_error (msg : value) (w w' : realm) (e : exn) :
  nullish msg = false ->
  valid_version msg = true ->
  route msg (logged "Processing JSON-RPC message" (processing_entry msg) w)
    = (Throw e, w') ->
  processJsonRpcMessage msg w =
    (Return (internal_error_response (field msg "id") (message e)),
     logged "Error processing message" (VString (message e)) w').
Proof.
  intros Hn Hv Hr. rewrite process_valid, Hr by assumption. reflexivity.
Qed.

(** ** The dispatcher on [null] *)

(** C1.  The claim is that the dispatcher returns a response for every
    input message and never raises past its boundary.  On the message
    [null] (the body [null] of a POST is valid JSON) the first read inside
    the [try] block raises, and the [catch] clause reads [message.id] on
    the same [null]: that second [TypeError] leaves the dispatcher. *)
Theorem dispatcher_raises_on_null (w : realm) :
  fst (processJsonRpcMessage VNull w) =
    Throw (TypeError "Cannot read properties of null (reading 'id')").
Proof. reflexivity. Qed.

(** ** Envelope validation *)

(** C4.  A message whose [jsonrpc] member is not the string 2.0 is answered
    with the InvalidRequest error (code -32600) carrying the id of the
    message; the only effect is the one console line written on entry, so
    validation comes before any routing: no handler runs and the response
    does not depend on [method]. *)
Theorem invalid_version_rejected_before_routing (msg : value) (w : realm) :
  nullish msg = false ->
  valid_version msg = false ->
  processJsonRpcMessage msg w =
    (Return (error_response (field msg "id") (-32600)
               "Invalid Request: jsonrpc must be '2.0'"),
     logged "Processing JSON-RPC message" (processing_entry msg) w) /\
  exists line : string,
    console (snd (processJsonRpcMessage msg w)) = (console w ++ [line])%list.
Proof.
  intros Hn Hv. rewrite process_invalid by assumption. split; [reflexivity|].
  eexists. reflexivity.
Qed.

Lemma invalid_version_rejected_before_routing_witness :
  let msg := VObject [("jsonrpc", VString "1.0"); ("id", VString "a");
                      ("method", VObject [("toString", VNull)])] in
  processJsonRpcMessage msg (boot "") =
    (Return (error_response (VString "a") (-32600)
               "Invalid Request: jsonrpc must be '2.0'"),
     logged "Processing JSON-RPC message" (processing_entry msg) (boot "")) /\
  exists line : string,
    console (snd (processJsonRpcMessage msg (boot ""))) = (console (boot "") ++ [line])%list.
Proof.
  intros msg. apply (invalid_version_rejected_before_routing msg (boot "")); reflexivity.
Defined.

(** ** Unknown methods and tools *)

(** The MethodNotFound answer, whenever the method can be written into the
    error message. *)
Lemma unknown_method_named (msg : value) (w : realm) (n : string) :
  nullish msg = false ->
  valid_version msg = true ->
  known_method (field msg "method") = false ->
  ToString (field msg "method") = Return n ->
  fst (processJsonRpcMessage msg w) =
    Return (error_response (field msg "id") (-32601) ("Method not found: " ++ n)).
Proof.
  intros Hn Hv Hk Hs. rewrite process_valid by assumption.
  unfold known_method in Hk. repeat (apply orb_false_iff in Hk; destruct Hk as [Hk ?]).
  unfold route, bind, lift. rewrite !(Get_field msg) by assumption.
  repeat match goal with H : strict_eq_string _ _ = false |- _ => rewrite H; clear H end.
  rewrite Hs. reflexivity.
Qed.

Lemma unknown_method_string (msg : value) (w : realm) (m : string) :
  valid_version msg = true ->
  field msg "method" = VString m ->
  known_method (VString m) = false ->
  fst (processJsonRpcMessage msg w) =
    Return (error_response (field msg "id") (-32601) ("Method not found: " ++ m)).
Proof.
  intros Hv Hm Hk. apply unknown_method_named; rewrite ?Hm; auto.
  eapply field_not_nullish, Hm.
Qed.

(** The MethodNotFound answer of tools/call, whenever the tool name can be
    written into the error message. *)
Lemma unknown_tool_named (msg : value) (w : realm) (n : string) :
  valid_version msg = true ->
  field msg "method" = VString "tools/call" ->
  nullish (field msg "params") = false ->
  registered_tool (field (field msg "params") "name") = false ->
  ToString (field (field msg "params") "name") = Return n ->
  fst (processJsonRpcMessage msg w) =
    Return (error_response (field msg "id") (-32601) ("Method not found: " ++ n)).
Proof.
  intros Hv Hm Hp Hr Hs.
  assert (Hn : nullish msg = false) by (eapply field_not_nullish, Hm).
  rewrite process_valid by assumption.
  unfold registered_tool in Hr. apply orb_false_iff in Hr. destruct Hr as [H1 H2].
  unfold route. unfold bind at 1. unfold lift at 1. rewrite (Get_field msg) by assumption.
  rewrite Hm. cbn [strict_eq_string String.eqb Ascii.eqb Bool.eqb].
  unfold handleToolsCall, bind, lift. rewrite !(Get_field msg) by assumption.
  rewrite destructure_defined, log_returns by assumption.
  cbn [fst snd]. rewrite H1, H2, Hs. reflexivity.
Qed.

Lemma unknown_tool_string (msg : value) (w : realm) (name : string) :
  valid_version msg = true ->
  field msg "method" = VString "tools/call" ->
  field (field msg "params") "name" = VString name ->
  registered_tool (VString name) = false ->
  fst (processJsonRpcMessage msg w) =
    Return (error_response (field msg "id") (-32601) ("Method not found: " ++ name)).
Proof.
  intros Hv Hm Hname Hr. apply unknown_tool_named; rewrite ?Hname; auto.
  eapply field_not_nullish, Hname.
Qed.

(** C5.  The claim is that every tools/call whose [params.name] is not a
    registered tool is answered with code -32601.  The branch for an
    unknown tool writes the name into the error message; for a name that
    is an object with an own [toString] member the conversion raises, and
    the answer is the InternalError of the [catch] clause, code -32603. *)
Theorem unprintable_tool_name_is_internal_error (w : realm) :
  registered_tool (field (field call_unprintable_tool "params") "name") = false /\
  fst (processJsonRpcMessage call_unprintable_tool w) =
    Return (internal_error_response (VNumber 1)
              "Cannot convert object to primitive value").
Proof. split; reflexivity. Qed.

(** The same slip on the default branch of the [switch]. *)
Lemma unprintable_method_is_internal_error (w : realm) :
  fst (processJsonRpcMessage
         (VObject [("jsonrpc", VString "2.0"); ("id", VNumber 2);
                   ("method", VArray [VObject [("toString", VNull)]])]) w) =
    Return (internal_error_response (VNumber 2)
              "Cannot convert object to primitive value").
Proof. reflexivity. Qed.

(** ** Echo of the id *)

(** C9.  Whatever the dispatcher answers carries the id of the message it
    answers, unchanged: every message other than [null] gets a response,
    and the [id] of the response is the [id] of the message. *)
Theorem response_echoes_id (msg : value) (w : realm) :
  nullish msg = false ->
  exists response,
    fst (processJsonRpcMessage msg w) = Return response /\
    field response "id" = field msg "id".
Proof.
  intros Hn. destruct (process_answers msg w Hn) as (r & Hr & Hshape).
  exists r. split; [exact Hr | apply response_for_id, Hshape].
Qed.

Lemma response_echoes_id_witness :
  exists response,
    fst (processJsonRpcMessage (request (VString "req-1") "ping" VNull) (boot "")) =
      Return response /\
    field response "id" = VString "req-1".
Proof.
  apply (response_echoes_id (request (VString "req-1") "ping" VNull) (boot "")).
  reflexivity.
Defined.

(** ** tools/call without arguments *)

(** C10.  A tools/call request that names a registered tool and has no
    [params.arguments], or has no [params] at all, makes the handler raise;
    the dispatcher answers with the InternalError response, code -32603,
    whose [data] is the description of that error. *)
Theorem tools_call_missing_arguments (msg : value) :
  valid_version msg = true ->
  field msg "method" = VString "tools/call" ->
  field msg "params" = VUndefined \/
  (registered_tool (field (field msg "params") "name") = true /\
   field (field msg "params") "arguments" = VUndefined) ->
  exists e : exn,
    (forall w, fst (handleToolsCall msg w) = Throw e) /\
    (forall w, fst (processJsonRpcMessage msg w) =
               Return (internal_error_response (field msg "id") (message e))).
Proof.
  intros Hv Hm Hp.
  assert (Hn : nullish msg = false) by (eapply field_not_nullish, Hm).
  assert (Hroute : forall w, route msg w = handleToolsCall msg w).
  { intros w. unfold route. unfold bind at 1. unfold lift at 1.
    rewrite (Get_field msg), Hm by assumption. reflexivity. }
  assert (Hcall : exists e, forall w, exists w', handleToolsCall msg w = (Throw e, w')).
  { unfold handleToolsCall, bind, lift. rewrite !(Get_field msg) by assumption.
    destruct Hp as [Hp | [Hr Ha]].
    - rewrite Hp. eexists. intros w. eexists. reflexivity.
    - assert (Hpn : nullish (field msg "params") = false).
      { destruct (field msg "params"); try reflexivity; discriminate. }
      rewrite destructure_defined by assumption. rewrite Ha.
      unfold registered_tool in Hr.
      destruct (strict_eq_string (field (field msg "params") "name") "search") eqn:Hs.
      + eexists. intros w. eexists.
        rewrite log_returns. cbn [fst snd]. rewrite Hs. reflexivity.
      + cbn in Hr. eexists. intros w. eexists.
        rewrite log_returns. cbn [fst snd]. rewrite Hs, Hr. reflexivity. }
  destruct Hcall as [e He]. exists e. split.
  - intros w. destruct (He w) as [w' ->]. reflexivity.
  - intros w. rewrite process_valid, Hroute by assumption.
    destruct (He (logged "Processing JSON-RPC message" (processing_entry msg) w))
      as [w' ->]. reflexivity.
Qed.

Lemma tools_call_missing_arguments_witness :
  exists e : exn,
    (forall w, fst (handleToolsCall call_search_no_arguments w) = Throw e) /\
    (forall w, fst (processJsonRpcMessage call_search_no_arguments w) =
               Return (internal_error_response (VNumber 7) (message e))).
Proof.
  apply (tools_call_missing_arguments call_search_no_arguments).
  - reflexivity.
  - reflexivity.
  - right. split; reflexivity.
Defined.

Example call_search_no_arguments_response :
  fst (processJsonRpcMessage call_search_no_arguments (boot "")) =
    Return (internal_error_response (VNumber 7)
              "Cannot read properties of undefined (reading 'query')").
Proof. reflexivity. Qed.

Example call_without_params_response :
  fst (processJsonRpcMessage
         (VObject [("jsonrpc", VString "2.0"); ("id", VNull);
                   ("method", VString "tools/call")]) (boot "")) =
    Return (internal_error_response VNull
      "Cannot destructure property 'name' of 'request.params' as it is undefined.").
Proof. reflexivity. Qed.

(** ** The tool registry *)

Lemma keeps_ret {A} (a : A) : keeps_tools (ret a).
Proof. intros w. reflexivity. Qed.

Lemma keeps_lift {A} (o : outcome A) : keeps_tools (lift o).
Proof. intros w. reflexivity. Qed.

Lemma keeps_log (msg : string) (data : value) : keeps_tools (log msg data).
Proof. intros w. reflexivity. Qed.

Lemma keeps_toISOString : keeps_tools toISOString.
Proof. intros w. reflexivity. Qed.

Lemma keeps_read_TOOLS : keeps_tools read_TOOLS.
Proof. intros w. reflexivity. Qed.

Lemma keeps_bind {A B} (c : M A) (k : A -> M B) :
  keeps_tools c -> (forall a, keeps_tools (k a)) -> keeps_tools (bind c k).
Proof.
  intros Hc Hk w. unfold bind. specialize (Hc w).
  destruct (c w) as [[a|e] w1]; cbn in *; [rewrite Hk|]; exact Hc.
Qed.

Lemma keeps_try_catch {A} (c : M A) (h : exn -> M A) :
  keeps_tools c -> (forall e, keeps_tools (h e)) -> keeps_tools (try_catch c h).
Proof.
  intros Hc Hh w. unfold try_catch. specialize (Hc w).
  destruct (c w) as [[a|e] w1]; cbn in *; [|rewrite Hh]; exact Hc.
Qed.

Lemma keeps_if {A} (b : bool) (c1 c2 : M A) :
  keeps_tools c1 -> keeps_tools c2 -> keeps_tools (if b then c1 else c2).
Proof. destruct b; auto. Qed.

Create HintDb registry.
#[local] Hint Resolve keeps_ret keeps_lift keeps_log keeps_toISOString
  keeps_read_TOOLS keeps_bind keeps_try_catch keeps_if : registry.

Lemma keeps_handleToolsCall (request : value) : keeps_tools (handleToolsCall request).
Proof. unfold handleToolsCall. cbv zeta. auto 20 with registry. Qed.

Lemma keeps_processJsonRpcMessage (msg : value) :
  keeps_tools (processJsonRpcMessage msg).
Proof.
  unfold processJsonRpcMessage, handleInitialize, handleToolsList, handlePing.
  pose proof keeps_handleToolsCall.
  auto 20 with registry.
Qed.

Lemma serve_keeps_tools (msgs : list value) (w : realm) :
  tools (snd (serve msgs w)) = tools w.
Proof.
  revert w. induction msgs as [|m rest IH]; intros w; simpl; [reflexivity|].
  pose proof (keeps_processJsonRpcMessage m w) as Hm.
  destruct (processJsonRpcMessage m w) as [o w1]. simpl in Hm.
  specialize (IH w1). destruct (serve rest w1) as [os w2]. simpl in *. congruence.
Qed.

Lemma tools_list_answer (msg : value) (w : realm) :
  valid_version msg = true ->
  field msg "method" = VString "tools/list" ->
  fst (processJsonRpcMessage msg w) =
    Return (result_response (field msg "id") (VObject [("tools", tools w)])).
Proof.
  intros Hv Hm.
  assert (Hn : nullish msg = false) by (eapply field_not_nullish, Hm).
  rewrite process_valid by assumption.
  unfold route. unfold bind at 1. unfold lift at 1.
  rewrite (Get_field msg), Hm by assumption.
  cbn [strict_eq_string String.eqb Ascii.eqb Bool.eqb].
  rewrite handleToolsList_returns by assumption. reflexivity.
Qed.

Lemma serve_tools_list (msgs : list value) (w : realm) (i : nat) (msg : value) :
  nth_error msgs i = Some msg ->
  valid_version msg = true ->
  field msg "method" = VString "tools/list" ->
  nth_error (fst (serve msgs w)) i =
    Some (Return (result_response (field msg "id") (VObject [("tools", tools w)]))).
Proof.
  revert w i. induction msgs as [|m rest IH]; intros w i Hi Hv Hm.
  - destruct i; discriminate.
  - simpl. pose proof (keeps_processJsonRpcMessage m w) as Hk.
    pose proof (tools_list_answer m w) as Ha.
    destruct (processJsonRpcMessage m w) as [o w1]. simpl in Hk, Ha.
    specialize (IH w1). destruct (serve rest w1) as [os w2]. simpl in IH.
    destruct i as [|i]; simpl in *.
    + injection Hi as ->. rewrite Ha by assumption. reflexivity.
    + rewrite <- Hk. apply IH; assumption.
Qed.

Lemma io_ret {A} (a : A) : keeps_registry (ret a).
Proof. intros s. reflexivity. Qed.

Lemma io_lift {A} (o : outcome A) : keeps_registry (lift o).
Proof. intros s. reflexivity. Qed.

Lemma io_in_realm {A} (c : M A) : keeps_tools c -> keeps_registry (in_realm c).
Proof.
  intros Hc s. unfold in_realm. specialize (Hc (world s)).
  destruct (c (world s)) as [o w']. exact Hc.
Qed.

Lemma io_bind {A B} (c : IO A) (k : A -> IO B) :
  keeps_registry c -> (forall a, keeps_registry (k a)) -> keeps_registry (bind c k).
Proof.
  intros Hc Hk s. unfold bind. specialize (Hc s).
  destruct (c s) as [[a|e] s1]; cbn in *; [rewrite Hk|]; exact Hc.
Qed.

Lemma io_try_catch {A} (c : IO A) (h : exn -> IO A) :
  keeps_registry c -> (forall e, keeps_registry (h e)) -> keeps_registry (try_catch c h).
Proof.
  intros Hc Hh s. unfold try_catch. specialize (Hc s).
  destruct (c s) as [[a|e] s1]; cbn in *; [|rewrite Hh]; exact Hc.
Qed.

Lemma io_res_write (chunk : string) : keeps_registry (res_write chunk).
Proof. intros s. reflexivity. Qed.

Lemma io_res_end : keeps_registry res_end.
Proof. intros s. reflexivity. Qed.

Lemma io_set_timer (p : option Z) (cb : callback) (delay : Z) :
  keeps_registry (set_timer p cb delay).
Proof. intros s. reflexivity. Qed.

Lemma io_clearInterval (h : nat) : keeps_registry (clearInterval h).
Proof. intros s. reflexivity. Qed.

Lemma io_req_on (l : listener) : keeps_registry (req_on l).
Proof. intros s. reflexivity. Qed.

#[local] Hint Resolve io_ret io_lift io_in_realm io_bind io_try_catch io_res_write
  io_res_end io_set_timer io_clearInterval io_req_on
  keeps_processJsonRpcMessage : registry.

Lemma io_sendSSE (data : value) : keeps_registry (sendSSE data).
Proof. unfold sendSSE. cbv zeta. auto 10 with registry. Qed.

#[local] Hint Resolve io_sendSSE : registry.

Lemma io_POST_end (json : outcome value) : keeps_registry (POST_end json).
Proof. unfold POST_end. auto 20 with registry. Qed.

Lemma io_GET_sse : keeps_registry GET_sse.
Proof. unfold GET_sse, setTimeout, setInterval. auto 20 with registry. Qed.

Lemma io_run_callback (cb : callback) : keeps_registry (run_callback cb).
Proof. destruct cb; unfold run_callback; auto 20 with registry. Qed.

Lemma io_run_all (cs : list (IO unit)) :
  Forall keeps_registry cs -> keeps_registry (run_all cs).
Proof.
  induction 1 as [|c cs Hc _ IH]; simpl; auto with registry.
Qed.

Lemma fire_timer_keeps_registry (t : timer) (s : session) :
  tools (world (fire_timer t s)) = tools (world s).
Proof. unfold fire_timer. rewrite io_run_callback. reflexivity. Qed.

Lemma emit_close_keeps_registry (s : session) :
  tools (world (emit_close s)) = tools (world s).
Proof.
  unfold emit_close. rewrite io_run_all; [reflexivity|].
  apply Forall_map, Forall_forall. intros [h|h] _; unfold run_listener_close;
    auto 10 with registry.
Qed.

Lemma emit_error_keeps_registry (error : exn) (s : session) :
  tools (world (emit_error error s)) = tools (world s).
Proof.
  unfold emit_error. rewrite io_run_all; [reflexivity|].
  apply Forall_map, Forall_forall. intros [h|h] _; unfold run_listener_error;
    auto 10 with registry.
Qed.

Lemma step_keeps_registry (s s' : session) :
  step s s' -> tools (world s') = tools (world s).
Proof.
  intros [s0 t _ _ | s0 | s0 error].
  - apply fire_timer_keeps_registry.
  - apply emit_close_keeps_registry.
  - apply emit_error_keeps_registry.
Qed.

(** C6.  In any run of the dispatcher from the loaded module, every
    tools/list request is answered with the entries of the registry, in
    their order, the same at every call; the run leaves the registry as the
    module defined it, and so does every operation of the two transports
    (the handlers of POST and GET, a timer callback, a 'close' or 'error'
    listener). *)
Theorem tools_list_returns_registry
    (now : string) (msgs : list value) (i : nat) (msg : value) :
  nth_error msgs i = Some msg ->
  valid_version msg = true ->
  field msg "method" = VString "tools/list" ->
  nth_error (fst (serve msgs (boot now))) i =
    Some (Return (result_response (field msg "id") (VObject [("tools", TOOLS)]))) /\
  tools (snd (serve msgs (boot now))) = TOOLS /\
  (forall json s, tools (world (snd (POST_end json s))) = tools (world s)) /\
  (forall s, tools (world (snd (GET_sse s))) = tools (world s)) /\
  (forall t s, tools (world (fire_timer t s)) = tools (world s)) /\
  (forall s, tools (world (emit_close s)) = tools (world s)) /\
  (forall error s, tools (world (emit_error error s)) = tools (world s)).
Proof.
  intros Hi Hv Hm. split; [|split; [|split; [|split; [|split; [|split]]]]].
  - apply (serve_tools_list msgs (boot now) i msg); assumption.
  - apply (serve_keeps_tools msgs (boot now)).
  - intros json s. apply io_POST_end.
  - intros s. apply io_GET_sse.
  - apply fire_timer_keeps_registry.
  - apply emit_close_keeps_registry.
  - apply emit_error_keeps_registry.
Qed.

Lemma tools_list_returns_registry_witness :
  let msgs := [call_unprintable_tool; VNull;
               request (VNumber 3) "tools/list" VUndefined;
               request (VString "again") "tools/list" (VObject [])] in
  nth_error (fst (serve msgs (boot "t0"))) 3 =
    Some (Return (result_response (VString "again") (VObject [("tools", TOOLS)]))) /\
  tools (snd (serve msgs (boot "t0"))) = TOOLS /\
  (forall json s, tools (world (snd (POST_end json s))) = tools (world s)) /\
  (forall s, tools (world (snd (GET_sse s))) = tools (world s)) /\
  (forall t s, tools (world (fire_timer t s)) = tools (world s)) /\
  (forall s, tools (world (emit_close s)) = tools (world s)) /\
  (forall error s, tools (world (emit_error error s)) = tools (world s)).
Proof.
  intros msgs.
  apply (tools_list_returns_registry "t0" msgs 3
           (request (VString "again") "tools/list" (VObject []))); reflexivity.
Defined.

(** ** POST /sse *)

Lemma sendSSE_effect (data : value) (s : session) :
  sendSSE data s =
    (Return tt,
     mkSession (logged "Sent SSE message" (VObject [("type", VString (typeof data))])
                       (world s))
               (now s)
               (written s ++ [(negb (stream_closed s), frame (sse_payload data))])
               (ended s) (torn_down s) (timers s) (listeners s) (next_handle s)).
Proof. reflexivity. Qed.

Lemma has_field_field (v : value) (k : string) :
  has_field v k = false -> field v k = VUndefined.
Proof.
  destruct v; try reflexivity. unfold has_field, has_own, field, Get.
  destruct (lookup k props); [discriminate | reflexivity].
Qed.



(** The body [null] is parsed, the dispatcher raises on it, and the same
    [catch] clause answers with the ParseError frame. *)
Example null_body_gets_parse_error :
  JSON_parse "null" = Some (Return VNull) /\
  option_map written (POST_sse ["null"] (accept (boot "t0"))) =
    Some [(true, frame parse_error_text)].
Proof. split; reflexivity. Qed.

(** C3, as claimed: a message without [id] would get no response.  The
    ping notification is parsed, dispatched and answered: POST /sse writes
    a response frame for it, without [id]. *)
Lemma notification_gets_response :
  has_field notification_ping "id" = false /\
  JSON_parse notification_ping_text = Some (Return notification_ping) /\
  fst (processJsonRpcMessage notification_ping (boot "t0")) =
    Return (result_response VUndefined (VObject [])) /\
  option_map written (POST_sse [notification_ping_text] (accept (boot "t0"))) =
    Some [(true, frame empty_result_text)].
Proof. repeat split; reflexivity. Qed.

(** C3, amended.  A message without [id] is answered like any other: the
    dispatcher returns one response envelope, whose [id] is [undefined],
    and POST /sse writes exactly one frame with its serialisation. *)
Theorem message_without_id_is_answered (msg : value) (w : realm) :
  nullish msg = false ->
  has_field msg "id" = false ->
  exists (response : value) (text : string),
    fst (processJsonRpcMessage msg w) = Return response /\
    response_for VUndefined response /\
    JSON_stringify response = Some text /\
    written (snd (POST_end (Return msg) (accept w))) = [(true, frame text)].
Proof.
  intros Hn Hid. destruct (process_answers msg w Hn) as (r & Hr & Hshape).
  rewrite (has_field_field _ _ Hid) in Hshape.
  destruct Hshape as (k & body & -> & Hk).
  eexists. eexists. split; [exact Hr|]. split; [exists k, body; auto|].
  split; [reflexivity|].
  unfold POST_end, try_catch, bind, lift, in_realm. cbn [world accept].
  destruct (processJsonRpcMessage msg w) as [o w1]. cbn in Hr. subst o.
  reflexivity.
Qed.

Lemma message_without_id_is_answered_witness :
  exists (response : value) (text : string),
    fst (processJsonRpcMessage notification_ping (boot "t0")) = Return response /\
    response_for VUndefined response /\
    JSON_stringify response = Some text /\
    written (snd (POST_end (Return notification_ping) (accept (boot "t0")))) =
      [(true, frame text)].
Proof.
  apply (message_without_id_is_answered notification_ping (boot "t0")); reflexivity.
Defined.

(** ** GET /sse: timers and the closed stream *)

Lemma rearm_In (t : timer) (at_time : Z) (ts : list timer) (t' : timer) :
  In t' (rearm t at_time ts) ->
  exists t0, In t0 ts /\ handle t' = handle t0 /\ action t' = action t0.
Proof.
  unfold rearm. destruct (period t) as [p|].
  - rewrite in_map_iff. intros (t0 & <- & Hin). exists t0. split; [exact Hin|].
    destruct (Nat.eqb (handle t0) (handle t)); split; reflexivity.
  - rewrite filter_In. intros [Hin _]. exists t'. auto.
Qed.

Lemma filter_handle_In (h : nat) (ts : list timer) (t : timer) :
  In t (filter (fun t' => negb (Nat.eqb (handle t') h)) ts) ->
  In t ts /\ handle t <> h.
Proof.
  rewrite filter_In. intros [Hin Hneq]. split; [exact Hin|].
  apply negb_true_iff, Nat.eqb_neq in Hneq. exact Hneq.
Qed.

Lemma GET_sse_opens (w : realm) :
  let s := snd (GET_sse (accept w)) in
  timers s = [mkTimer 1 100 None ToolsChanged;
              mkTimer 2 25000 (Some 25000%Z) HeartbeatTick;
              mkTimer 3 50000 None (AutoClose 2)] /\
  listeners s = [OnClose 2; OnError 2] /\
  stream_closed s = false.
Proof. repeat split. Qed.

Lemma GET_sse_get_session (w : realm) : get_session (snd (GET_sse (accept w))).
Proof.
  destruct (GET_sse_opens w) as (Ht & Hl & Hc).
  split.
  - exists 2. rewrite Ht, Hl. split; [reflexivity|]. split.
    + intros t [<- | [<- | [<- | []]]]; unfold is_heartbeat; simpl; intros; congruence.
    + intros t h' [<- | [<- | [<- | []]]]; simpl; intros; congruence.
  - rewrite Ht. intros t [<- | [<- | [<- | []]]]; simpl; discriminate.
  - rewrite Hc. intros Hfalse. discriminate Hfalse.
Qed.

Lemma heartbeat_frame_is_not_data (text : string) : heartbeat_frame <> frame text.
Proof. discriminate. Qed.

Lemma fire_timer_effect (t : timer) (s : session) :
  let s' := fire_timer t s in
  listeners s' = listeners s /\
  (stream_closed s = true -> stream_closed s' = true) /\
  (forall t', In t' (timers s') ->
     exists t0, In t0 (timers s) /\ handle t' = handle t0 /\ action t' = action t0) /\
  match action t with
  | ToolsChanged => exists text, written_since s s' [(negb (stream_closed s), frame text)]
  | HeartbeatTick => written_since s s' [(negb (stream_closed s), heartbeat_frame)]
  | AutoClose h =>
      written_since s s' [] /\ stream_closed s' = true /\
      forall t', In t' (timers s') -> handle t' <> h
  | DrainEnd => written_since s s' [] /\ stream_closed s' = true
  end.
Proof.
  unfold fire_timer, written_since, run_callback.
  destruct (action t) as [| |h|].
  - rewrite sendSSE_effect. cbn [snd listeners timers written stream_closed ended torn_down].
    split; [reflexivity|]. split; [auto|]. split; [apply rearm_In|].
    eexists. reflexivity.
  - cbn -[rearm Z.max heartbeat_frame].
    split; [reflexivity|]. split; [auto|]. split; [apply rearm_In|]. reflexivity.
  - cbn -[rearm Z.max]. split; [reflexivity|]. split; [reflexivity|]. split.
    + intros t' Hin. apply filter_handle_In in Hin. destruct Hin as [Hin _].
      eapply rearm_In, Hin.
    + rewrite app_nil_r. repeat split. intros t' Hin.
      apply filter_handle_In in Hin. apply Hin.
  - cbn -[rearm Z.max]. split; [reflexivity|]. split; [reflexivity|].
    split; [apply rearm_In|]. rewrite app_nil_r. auto.
Qed.

Lemma emit_close_effect (s : session) (h : nat) :
  listeners s = [OnClose h; OnError h] ->
  let s' := emit_close s in
  listeners s' = listeners s /\ stream_closed s' = true /\ written s' = written s /\
  timers s' = filter (fun t => negb (Nat.eqb (handle t) h)) (timers s).
Proof.
  intros Hl. unfold emit_close. cbn [tear_down listeners]. rewrite Hl.
  cbn. unfold stream_closed. cbn. rewrite orb_true_r. auto.
Qed.

Lemma emit_error_effect (error : exn) (s : session) (h : nat) :
  listeners s = [OnClose h; OnError h] ->
  let s' := emit_error error s in
  listeners s' = listeners s /\ stream_closed s' = true /\ written s' = written s /\
  timers s' = filter (fun t => negb (Nat.eqb (handle t) h)) (timers s).
Proof.
  intros Hl. unfold emit_error. cbn [tear_down listeners]. rewrite Hl.
  cbn. unfold stream_closed. cbn. rewrite orb_true_r. auto.
Qed.

(** Clearing the heartbeat's handle keeps the invariant, whatever the state
    of the stream. *)
Lemma cleared_get_session (s s' : session) (h : nat) :
  get_session s ->
  listeners s = [OnClose h; OnError h] ->
  listeners s' = listeners s ->
  timers s' = filter (fun t => negb (Nat.eqb (handle t) h)) (timers s) ->
  get_session s'.
Proof.
  intros [(h0 & Hl0 & Hhb & Hac) Hnd _] Hl Hl' Ht.
  assert (h0 = h) as -> by congruence.
  split.
  - exists h. rewrite Hl', Ht. split; [exact Hl|]. split.
    + intros t Hin. apply filter_handle_In in Hin. apply Hhb, Hin.
    + intros t h' Hin. apply filter_handle_In in Hin. apply Hac, Hin.
  - intros t Hin. rewrite Ht in Hin. apply filter_handle_In in Hin. apply Hnd, Hin.
  - intros _ t Hin. rewrite Ht in Hin. apply filter_handle_In in Hin.
    destruct (is_heartbeat t) eqn:Hb; [|reflexivity].
    exfalso. apply (proj2 Hin). apply Hhb; [apply Hin | exact Hb].
Qed.

Lemma step_get_session (s s' : session) :
  get_session s -> step s s' -> get_session s'.
Proof.
  intros Hs Hstep. pose proof Hs as [(h & Hl & Hhb & Hac) Hnd Hclosed].
  destruct Hstep as [s t Hin Hmin | s | s error].
  - destruct (fire_timer_effect t s) as (Hl' & Hmono & Hsub & Hact).
    split.
    + exists h. rewrite Hl'. split; [exact Hl|]. split.
      * intros t' Hin' Hb. destruct (Hsub t' Hin') as (t0 & Hin0 & -> & Ha).
        apply Hhb; [exact Hin0|]. unfold is_heartbeat in *. rewrite <- Ha. exact Hb.
      * intros t' h' Hin' Ha'. destruct (Hsub t' Hin') as (t0 & Hin0 & _ & Ha).
        apply (Hac t0); [exact Hin0|]. rewrite <- Ha. exact Ha'.
    + intros t' Hin'. destruct (Hsub t' Hin') as (t0 & Hin0 & _ & Ha).
      rewrite Ha. apply Hnd, Hin0.
    + intros Hc' t' Hin'. destruct (Hsub t' Hin') as (t0 & Hin0 & Hh & Ha).
      destruct (stream_closed s) eqn:Hc.
      * unfold is_heartbeat. rewrite Ha. apply (Hclosed eq_refl t0 Hin0).
      * destruct (is_heartbeat t') eqn:Hb; [|reflexivity]. exfalso.
        assert (Hb0 : is_heartbeat t0 = true)
          by (unfold is_heartbeat in *; rewrite <- Ha; exact Hb).
        pose proof (Hhb t0 Hin0 Hb0) as Hh0.
        destruct (action t) as [| |h0|] eqn:Eat.
        -- revert Hc'. unfold fire_timer, run_callback.
           rewrite Eat, sendSSE_effect. unfold stream_closed in *. cbn. congruence.
        -- revert Hc'. unfold fire_timer, run_callback. rewrite Eat.
           unfold stream_closed in *. cbn. congruence.
        -- destruct Hact as (_ & _ & Hno). apply (Hno t' Hin').
           rewrite Hh, Hh0. symmetry. apply (Hac t h0 Hin Eat).
        -- apply (Hnd t Hin Eat).
  - destruct (emit_close_effect s h Hl) as (Hl' & _ & _ & Ht).
    apply (cleared_get_session s _ h Hs Hl Hl' Ht).
  - destruct (emit_error_effect error s h Hl) as (Hl' & _ & _ & Ht).
    apply (cleared_get_session s _ h Hs Hl Hl' Ht).
Qed.

Lemma steps_get_session (s s' : session) :
  get_session s -> steps s s' -> get_session s'.
Proof.
  intros Hs Hsteps. induction Hsteps as [s | s1 s2 s3 H12 _ IH]; [exact Hs|].
  apply IH. apply (step_get_session s1 s2 Hs H12).
Qed.

(** One step from a closed stream: it stays closed, and what is written is
    no heartbeat. *)
Lemma step_after_close (s s' : session) :
  get_session s -> stream_closed s = true -> step s s' ->
  stream_closed s' = true /\
  exists later, written_since s s' later /\ ~ In heartbeat_frame (map snd later).
Proof.
  intros Hs Hc Hstep. pose proof Hs as [(h & Hl & _ & _) Hnd Hclosed].
  destruct Hstep as [s t Hin Hmin | s | s error].
  - destruct (fire_timer_effect t s) as (_ & Hmono & _ & Hact).
    split; [apply Hmono, Hc|].
    pose proof (Hclosed Hc t Hin) as Hb. unfold is_heartbeat in Hb.
    destruct (action t) as [| |h0|] eqn:Eat; try discriminate.
    + destruct Hact as (text & Hw). eexists. split; [exact Hw|].
      cbn. intros [Heq | []]. symmetry in Heq.
      apply (heartbeat_frame_is_not_data text Heq).
    + exists []. split; [apply Hact | intros []].
    + exists []. split; [apply Hact | intros []].
  - destruct (emit_close_effect s h Hl) as (_ & Hc' & Hw & _).
    split; [exact Hc'|]. exists []. unfold written_since.
    rewrite app_nil_r. split; [exact Hw | intros []].
  - destruct (emit_error_effect error s h Hl) as (_ & Hc' & Hw & _).
    split; [exact Hc'|]. exists []. unfold written_since.
    rewrite app_nil_r. split; [exact Hw | intros []].
Qed.

Lemma steps_after_close (s s' : session) :
  get_session s -> stream_closed s = true -> steps s s' ->
  stream_closed s' = true /\
  exists later, written_since s s' later /\ ~ In heartbeat_frame (map snd later).
Proof.
  intros Hs Hc Hsteps. induction Hsteps as [s | s1 s2 s3 H12 H23 IH].
  - split; [exact Hc|]. exists []. unfold written_since. rewrite app_nil_r.
    split; [reflexivity | intros []].
  - destruct (step_after_close s1 s2 Hs Hc H12) as (Hc2 & l1 & Hw1 & Hn1).
    destruct (IH (step_get_session s1 s2 Hs H12) Hc2) as (Hc3 & l2 & Hw2 & Hn2).
    split; [exact Hc3|]. exists (l1 ++ l2)%list. unfold written_since in *.
    rewrite Hw2, Hw1, app_assoc. split; [reflexivity|].
    rewrite map_app, in_app_iff. tauto.
Qed.

Lemma steps_trans (s1 s2 s3 : session) : steps s1 s2 -> steps s2 s3 -> steps s1 s3.
Proof.
  intros H12 H23. induction H12 as [s | s1 s2 s2' Hstep _ IH]; [exact H23|].
  apply (steps_cons s1 s2); [exact Hstep | apply IH, H23].
Qed.

(** The event loop of the model takes steps of the relation. *)
Lemma earliest_spec (ts : list timer) (t : timer) :
  earliest ts = Some t ->
  In t ts /\ forall t', In t' ts -> (due t <= due t')%Z.
Proof.
  revert t. induction ts as [|t0 rest IH]; intros t; simpl; [discriminate|].
  destruct (earliest rest) as [t1|] eqn:E.
  - destruct (IH t1 eq_refl) as [Hin Hmin].
    destruct (Z.ltb (due t1) (due t0)) eqn:Hlt; intros [= <-].
    + apply Z.ltb_lt in Hlt. split; [right; exact Hin|].
      intros t' [<- | Hin']; [lia | apply Hmin, Hin'].
    + apply Z.ltb_ge in Hlt. split; [left; reflexivity|].
      intros t' [<- | Hin']; [lia|]. specialize (Hmin t' Hin'). lia.
  - intros [= <-]. split; [left; reflexivity|].
    intros t' [<- | Hin']; [lia|]. destruct rest; [destruct Hin'|].
    simpl in E. destruct (earliest rest); [destruct (Z.ltb _ _)|]; discriminate.
Qed.

Lemma fire_next_step (s s' : session) : fire_next s = Some s' -> step s s'.
Proof.
  unfold fire_next. destruct (earliest (timers s)) as [t|] eqn:E; [|discriminate].
  intros [= <-]. destruct (earliest_spec _ _ E) as [Hin Hmin].
  apply step_fire; assumption.
Qed.

Lemma fire_many_steps (n : nat) (s : session) : steps s (fire_many n s).
Proof.
  revert s. induction n as [|n IH]; intros s; simpl; [apply steps_refl|].
  destruct (fire_next s) as [s'|] eqn:E; [|apply steps_refl].
  eapply steps_cons; [apply fire_next_step, E | apply IH].
Qed.




(** ** [JSON.stringify] then [JSON.parse] *)

Lemma value_ind' (P : value -> Prop) :
  P VUndefined -> P VNull -> (forall b, P (VBool b)) -> (forall n, P (VNumber n)) ->
  (forall s, P (VString s)) ->
  (forall items, Forall P items -> P (VArray items)) ->
  (forall props, Forall (fun kv => P (snd kv)) props -> P (VObject props)) ->
  forall v, P v.
Proof.
  intros Hu Hn Hb Hz Hs Ha Ho.
  fix IH 1. intros [| |b|n|s|items|props].
  - exact Hu.
  - exact Hn.
  - apply Hb.
  - apply Hz.
  - apply Hs.
  - apply Ha. induction items as [|x l IHl]; constructor; [apply IH | exact IHl].
  - apply Ho. induction props as [|[k x] l IHl]; constructor; [apply IH | exact IHl].
Qed.

Lemma append_assoc (a b c : string) : (a ++ b) ++ c = a ++ (b ++ c).
Proof. induction a as [|x a IH]; simpl; [reflexivity | rewrite IH; reflexivity]. Qed.

Lemma length_append (a b : string) :
  String.length (a ++ b) = String.length a + String.length b.
Proof. induction a as [|x a IH]; simpl; [reflexivity | rewrite IH; reflexivity]. Qed.

Lemma stringify_array (items : list value) :
  JSON_stringify (VArray items) = Some ("[" ++ elements_text true items ++ "]").
Proof.
  cbn [JSON_stringify].
  match goal with
  | |- Some (_ ++ ?f true items ++ _) = _ =>
      assert (H : forall first, f first items = elements_text first items)
  end.
  { induction items as [|x l IH]; intros first; [reflexivity|].
    cbn [elements_text]. rewrite <- (IH false). reflexivity. }
  rewrite H. reflexivity.
Qed.

Lemma stringify_object (props : list (string * value)) :
  JSON_stringify (VObject props) = Some ("{" ++ members_text true props ++ "}").
Proof.
  cbn [JSON_stringify].
  match goal with
  | |- Some (_ ++ ?f true props ++ _) = _ =>
      assert (H : forall first, f first props = members_text first props)
  end.
  { induction props as [|[k x] l IH]; intros first; [reflexivity|].
    cbn [members_text]. destruct (JSON_stringify x) eqn:E.
    - rewrite <- (IH false). reflexivity.
    - rewrite <- (IH first). reflexivity. }
  rewrite H. reflexivity.
Qed.

(** *** Strings *)

Lemma read_string_quote_char (c : ascii) (t : string) :
  read_string (quote_char c ++ t) = parsed_map (String c) (read_string t).
Proof.
  destruct c as [[] [] [] [] [] [] [] []]; reflexivity.
Qed.

Lemma read_string_quoted (s rest : string) :
  read_string (quote_chars s ++ dq ++ rest) = Parsed s rest.
Proof.
  induction s as [|c s IH]; [reflexivity|].
  cbn [quote_chars]. rewrite append_assoc, read_string_quote_char, IH. reflexivity.
Qed.

(** *** Numbers *)

Lemma read_digits_text (u : Decimal.uint) (rest : string) :
  no_digit_ahead rest ->
  read_digits (NilEmpty.string_of_uint u ++ rest) = (u, rest).
Proof.
  intros Hrest. induction u as [|u IH|u IH|u IH|u IH|u IH|u IH|u IH|u IH|u IH|u IH];
    simpl; try (rewrite IH; reflexivity).
  destruct rest as [|c r]; [reflexivity|].
  cbn [NilEmpty.string_of_uint append read_digits].
  unfold no_digit_ahead, is_digit in Hrest.
  destruct (digit_of c); [discriminate Hrest | reflexivity].
Qed.

Lemma to_uint_shape (m : N) :
  N.to_uint m <> Decimal.Nil /\ leading_zero (N.to_uint m) = false.
Proof.
  pose proof (DecimalN.Unsigned.to_of (N.to_uint m)) as H.
  rewrite DecimalN.Unsigned.of_to in H. rewrite H. unfold Decimal.unorm.
  pose proof (DecimalFacts.nzhead_nonzero (N.to_uint m)) as Hnz.
  destruct (Decimal.nzhead (N.to_uint m)); split; try discriminate; try reflexivity.
  exfalso. eapply Hnz. reflexivity.
Qed.

Lemma digit_is_not_sign (c : ascii) (r : string) :
  is_digit c = true -> split_sign (String c r) = (false, String c r).
Proof. destruct c as [[] [] [] [] [] [] [] []]; try discriminate; reflexivity. Qed.

Lemma uint_text_head (u : Decimal.uint) :
  u <> Decimal.Nil ->
  exists c r, NilEmpty.string_of_uint u = String c r /\ is_digit c = true.
Proof. destruct u; intros H; try (eexists; eexists; split; reflexivity). congruence. Qed.

Lemma delimited_no_digit (rest : string) : delimited rest = true -> no_digit_ahead rest.
Proof.
  destruct rest as [|c r]; simpl; [trivial|].
  intros H. apply andb_true_iff in H. destruct H as [H _].
  apply negb_true_iff in H. exact H.
Qed.

Lemma delimited_no_fraction (rest : string) :
  delimited rest = true -> starts_fraction_or_exponent rest = false.
Proof.
  destruct rest as [|c r]; [reflexivity|]. unfold delimited.
  intros H. apply andb_true_iff in H. destruct H as [_ H].
  apply negb_true_iff in H. exact H.
Qed.

Lemma parse_digits_text (negative : bool) (m : N) (rest : string) :
  delimited rest = true ->
  safe_integer (if negative then Z.opp (Z.of_N m) else Z.of_N m) = true ->
  (let (u, rest') := read_digits (NilEmpty.string_of_uint (N.to_uint m) ++ rest) in
   match u with
   | Decimal.Nil => Malformed
   | _ =>
      if leading_zero u then Malformed
      else if starts_fraction_or_exponent rest' then Unsupported
      else
        let n := Z.of_N (N.of_uint u) in
        let z := if negative then Z.opp n else n in
        if safe_integer z then Parsed (VNumber z) rest' else Unsupported
   end) = Parsed (VNumber (if negative then Z.opp (Z.of_N m) else Z.of_N m)) rest.
Proof.
  intros Hd Hs. rewrite read_digits_text by (apply delimited_no_digit, Hd).
  destruct (to_uint_shape m) as [Hnil Hlz].
  rewrite Hlz, (delimited_no_fraction _ Hd). cbv zeta.
  rewrite DecimalN.Unsigned.of_to, Hs.
  destruct (N.to_uint m); try reflexivity. congruence.
Qed.

Lemma parse_number_text (n : Z) (rest : string) :
  safe_integer n = true -> delimited rest = true ->
  parse_number (NumberToString n ++ rest) = Parsed (VNumber n) rest.
Proof.
  intros Hs Hd. unfold parse_number, NumberToString.
  destruct n as [|p|p].
  - destruct (uint_text_head (N.to_uint (Z.to_N 0)) (proj1 (to_uint_shape _)))
      as (c & r & Htext & Hc).
    replace (split_sign (NilEmpty.string_of_uint (N.to_uint (Z.to_N 0)) ++ rest))
      with (false, NilEmpty.string_of_uint (N.to_uint (Z.to_N 0)) ++ rest)
      by (rewrite Htext; symmetry; apply digit_is_not_sign, Hc).
    apply (parse_digits_text false (Z.to_N 0) rest Hd Hs).
  - destruct (uint_text_head (N.to_uint (Z.to_N (Zpos p))) (proj1 (to_uint_shape _)))
      as (c & r & Htext & Hc).
    replace (split_sign (NilEmpty.string_of_uint (N.to_uint (Z.to_N (Zpos p))) ++ rest))
      with (false, NilEmpty.string_of_uint (N.to_uint (Z.to_N (Zpos p))) ++ rest)
      by (rewrite Htext; symmetry; apply digit_is_not_sign, Hc).
    apply (parse_digits_text false (Z.to_N (Zpos p)) rest Hd Hs).
  - change (split_sign (("-" ++ NilEmpty.string_of_uint (N.to_uint (Npos p))) ++ rest))
      with (true, NilEmpty.string_of_uint (N.to_uint (Npos p)) ++ rest).
    apply (parse_digits_text true (Npos p) rest Hd Hs).
Qed.

Lemma number_text_head (n : Z) :
  exists c r, NumberToString n = String c r /\
              (is_digit c = true \/ c = "-"%char).
Proof.
  unfold NumberToString. destruct n as [|p|p].
  - destruct (uint_text_head (N.to_uint (Z.to_N 0)) (proj1 (to_uint_shape _)))
      as (c & r & -> & Hc). eauto.
  - destruct (uint_text_head (N.to_uint (Z.to_N (Zpos p))) (proj1 (to_uint_shape _)))
      as (c & r & -> & Hc). eauto.
  - eexists. eexists. split; [reflexivity | right; reflexivity].
Qed.

Lemma parse_value_number (fuel : nat) (c : ascii) (r : string) :
  is_digit c = true \/ c = "-"%char ->
  parse_value (S fuel) (String c r) = parse_number (String c r).
Proof.
  intros [H | ->]; [|reflexivity].
  destruct c as [[] [] [] [] [] [] [] []]; try discriminate; reflexivity.
Qed.

(** *** Values *)

Lemma digit_starts_value (c : ascii) :
  is_digit c = true \/ c = "-"%char -> value_start c = true.
Proof.
  intros [H | ->]; [|reflexivity].
  destruct c as [[] [] [] [] [] [] [] []]; try discriminate; reflexivity.
Qed.

Lemma stringify_defined (v : value) :
  json_value v = true -> JSON_stringify v = Some (json_text v).
Proof.
  unfold json_text. destruct v as [| |[]| | | |]; try reflexivity.
  discriminate.
Qed.

Lemma text_head (v : value) :
  json_value v = true ->
  exists c r, json_text v = String c r /\ value_start c = true.
Proof.
  intros Hv. destruct v as [| |[]|n|s|items|props]; try discriminate;
    try (eexists; eexists; split; reflexivity).
  destruct (number_text_head n) as (c & r & Ht & Hc).
  exists c, r. split; [exact Ht | apply digit_starts_value, Hc].
Qed.

Lemma skip_ws_value_start (c : ascii) (r : string) :
  value_start c = true -> skip_ws (String c r) = String c r.
Proof.
  unfold value_start. intros H. cbn [skip_ws].
  destruct (is_ws c); [discriminate | reflexivity].
Qed.

Lemma distinct_NoDup (ks : list string) : distinct ks = true -> NoDup ks.
Proof.
  induction ks as [|k rest IH]; simpl; intros H; constructor.
  - apply andb_true_iff in H. destruct H as [H _]. apply negb_true_iff in H.
    intros Hin. assert (existsb (String.eqb k) rest = true); [|congruence].
    apply existsb_exists. exists k. split; [exact Hin | apply String.eqb_refl].
  - apply IH. apply andb_true_iff in H. apply H.
Qed.

Lemma obj_set_fresh (k : string) (v : value) (o : list (string * value)) :
  ~ In k (map fst o) -> obj_set k v o = (o ++ [(k, v)])%list.
Proof.
  induction o as [|[k' v'] o IH]; simpl; intros Hn; [reflexivity|].
  destruct (String.eqb k k') eqn:E.
  - apply String.eqb_eq in E. subst. exfalso. apply Hn. left. reflexivity.
  - rewrite IH; [reflexivity|]. intros Hin. apply Hn. right. exact Hin.
Qed.

Lemma build_distinct (members acc : list (string * value)) :
  NoDup (map fst (acc ++ members)) ->
  fold_left (fun o kv => obj_set (fst kv) (snd kv) o) members acc =
    (acc ++ members)%list.
Proof.
  revert acc. induction members as [|[k v] rest IH]; intros acc Hnd; simpl.
  - rewrite List.app_nil_r. reflexivity.
  - rewrite obj_set_fresh.
    + rewrite IH; rewrite <- List.app_assoc; [reflexivity | exact Hnd].
    + rewrite map_app in Hnd. simpl in Hnd. apply NoDup_remove_2 in Hnd.
      intros Hin. apply Hnd. apply in_or_app. left. exact Hin.
Qed.

Lemma build_object_distinct (props : list (string * value)) :
  distinct (map fst props) = true -> build_object props = VObject props.
Proof.
  intros H. unfold build_object. rewrite (build_distinct props []); [reflexivity|].
  apply distinct_NoDup, H.
Qed.

Lemma fuel_of_array (items : list value) :
  fuel_of (VArray items) = S (elements_fuel items).
Proof.
  reflexivity.
Qed.

Lemma fuel_of_object (props : list (string * value)) :
  fuel_of (VObject props) = S (members_fuel props).
Proof.
  reflexivity.
Qed.

Lemma json_value_array (x : value) (l : list value) :
  json_value (VArray (x :: l)) = json_value x && json_value (VArray l).
Proof. reflexivity. Qed.

Lemma json_value_object (k : string) (x : value) (l : list (string * value)) :
  json_value (VObject ((k, x) :: l)) = true ->
  json_value x = true /\ json_value (VObject l) = true.
Proof.
  cbn [json_value map fst distinct]. intros H.
  apply andb_true_iff in H. destruct H as [Hd H].
  apply andb_true_iff in Hd. destruct Hd as [_ Hd].
  apply andb_true_iff in H. destruct H as [Hx Hl].
  split; [exact Hx|]. rewrite Hd. exact Hl.
Qed.

Lemma elements_text_cons (y : value) (l : list value) (t : string) :
  elements_text false (y :: l) ++ t =
    String "," (json_text y ++ elements_text false l ++ t).
Proof. cbn [elements_text append]. rewrite append_assoc. reflexivity. Qed.

Lemma parse_elements_text (x : value) (l : list value) :
  Forall reads_back (x :: l) ->
  json_value (VArray (x :: l)) = true ->
  forall (fuel : nat) (rest : string),
    elements_fuel (x :: l) <= fuel ->
    parse_elements fuel (json_text x ++ elements_text false l ++ String "]" rest) =
      Parsed (x :: l) rest.
Proof.
  revert x. induction l as [|y l IH]; intros x Hall Hv fuel rest Hfuel.
  - rewrite json_value_array in Hv. apply andb_true_iff in Hv. destruct Hv as [Hx _].
    inversion Hall as [|? ? Hrx _]; subst.
    destruct fuel as [|fuel]; [cbn in Hfuel; lia|].
    cbn [elements_fuel] in Hfuel.
    change (elements_text false [] ++ String "]" rest) with (String "]" rest).
    cbn [parse_elements].
    rewrite (Hrx Hx fuel (String "]" rest)); [reflexivity | lia | reflexivity].
  - rewrite json_value_array in Hv. apply andb_true_iff in Hv. destruct Hv as [Hx Hl].
    inversion Hall as [|? ? Hrx Hrl]; subst.
    destruct fuel as [|fuel]; [cbn in Hfuel; lia|].
    cbn [elements_fuel] in Hfuel.
    rewrite elements_text_cons. cbn [parse_elements].
    rewrite (Hrx Hx fuel); [| lia | reflexivity].
    transitivity (parsed_map (cons x)
      (parse_elements fuel (json_text y ++ elements_text false l ++ String "]" rest)));
      [reflexivity|].
    rewrite (IH y Hrl Hl fuel rest); [reflexivity|]. cbn [elements_fuel]. lia.
Qed.

Lemma members_text_cons (first : bool) (k : string) (y : value)
    (l : list (string * value)) (t : string) :
  json_value y = true ->
  members_text first ((k, y) :: l) ++ t =
    (if first then "" else ",") ++ member_text k y (members_text false l ++ t).
Proof.
  intros Hy. cbn [members_text]. rewrite (stringify_defined y Hy).
  unfold member_text, QuoteJSONString.
  destruct first; cbn [append]; rewrite !append_assoc; cbn [append];
    rewrite !append_assoc; reflexivity.
Qed.

Lemma parse_members_step (fuel : nat) (k : string) (x : value) (tail : string) :
  parse_members (S fuel) (member_text k x tail) =
    match parse_value fuel (json_text x ++ tail) with
    | Parsed v r3 =>
        match skip_ws r3 with
        | EmptyString => Malformed
        | String c r4 =>
            if Ascii.eqb c "," then parsed_map (cons (k, v)) (parse_members fuel r4)
            else if Ascii.eqb c "}" then Parsed [(k, v)] r4
            else Malformed
        end
    | Malformed => Malformed
    | Unsupported => Unsupported
    end.
Proof.
  unfold member_text.
  change (parse_members (S fuel) (String "034" ?r))
    with (match read_string r with
          | Parsed k r1 =>
              match skip_ws r1 with
              | EmptyString => Malformed
              | String colon r2 =>
                  if Ascii.eqb colon ":" then
                    match parse_value fuel r2 with
                    | Parsed v r3 =>
                        match skip_ws r3 with
                        | EmptyString => Malformed
                        | String c r4 =>
                            if Ascii.eqb c "," then
                              parsed_map (cons (k, v)) (parse_members fuel r4)
                            else if Ascii.eqb c "}" then Parsed [(k, v)] r4
                            else Malformed
                        end
                    | Malformed => Malformed
                    | Unsupported => Unsupported
                    end
                  else Malformed
              end
          | Malformed => Malformed
          | Unsupported => Unsupported
          end).
  rewrite read_string_quoted. reflexivity.
Qed.

Lemma parse_members_text (k : string) (x : value) (l : list (string * value)) :
  Forall (fun kv => reads_back (snd kv)) ((k, x) :: l) ->
  json_value (VObject ((k, x) :: l)) = true ->
  forall (fuel : nat) (rest : string),
    members_fuel ((k, x) :: l) <= fuel ->
    parse_members fuel (member_text k x (members_text false l ++ String "}" rest)) =
      Parsed ((k, x) :: l) rest.
Proof.
  revert k x. induction l as [|[k' y] l IH]; intros k x Hall Hv fuel rest Hfuel.
  - apply json_value_object in Hv. destruct Hv as [Hx _].
    inversion Hall as [|? ? Hrx _]; subst. cbn [snd] in Hrx.
    destruct fuel as [|fuel]; [cbn in Hfuel; lia|].
    cbn [members_fuel] in Hfuel.
    change (members_text false [] ++ String "}" rest) with (String "}" rest).
    rewrite parse_members_step.
    rewrite (Hrx Hx fuel (String "}" rest)); [reflexivity | lia | reflexivity].
  - apply json_value_object in Hv. destruct Hv as [Hx Hl].
    pose proof (json_value_object _ _ _ Hl) as [Hy _].
    inversion Hall as [|? ? Hrx Hrl]; subst. cbn [snd] in Hrx.
    destruct fuel as [|fuel]; [cbn in Hfuel; lia|].
    cbn [members_fuel] in Hfuel.
    rewrite parse_members_step.
    rewrite (members_text_cons false k' y l _ Hy).
    rewrite (Hrx Hx fuel); [| lia | reflexivity].
    transitivity (parsed_map (cons (k, x))
      (parse_members fuel (member_text k' y (members_text false l ++ String "}" rest))));
      [reflexivity|].
    rewrite (IH k' y Hrl Hl fuel rest); [reflexivity|]. cbn [members_fuel]. lia.
Qed.

Lemma json_value_distinct (props : list (string * value)) :
  json_value (VObject props) = true -> distinct (map fst props) = true.
Proof. cbn [json_value]. intros H. apply andb_true_iff in H. apply H. Qed.

Lemma json_text_array (items : list value) :
  json_text (VArray items) = String "[" (elements_text true items ++ "]").
Proof. reflexivity. Qed.

Lemma json_text_object (props : list (string * value)) :
  json_text (VObject props) = String "{" (members_text true props ++ "}").
Proof. reflexivity. Qed.

Lemma parse_array_step (fuel : nat) (c : ascii) (r : string) :
  value_start c = true ->
  parse_value (S fuel) (String "[" (String c r)) =
    parsed_map VArray (parse_elements fuel (String c r)).
Proof.
  intros H.
  change (parse_value (S fuel) (String "[" (String c r)))
    with (match skip_ws (String c r) with
          | EmptyString => Malformed
          | String c' r' =>
              if Ascii.eqb c' "]" then Parsed (VArray []) r'
              else parsed_map VArray (parse_elements fuel (String c r))
          end).
  rewrite (skip_ws_value_start c r H). unfold value_start in H.
  destruct (Ascii.eqb c "]"); [|reflexivity].
  rewrite andb_false_r in H. discriminate H.
Qed.

Lemma every_value_reads_back (v : value) : reads_back v.
Proof.
  induction v as [| |b|n|s|items IH|props IH] using value_ind';
    intros Hv fuel rest Hfuel Hd.
  - discriminate Hv.
  - destruct fuel as [|fuel]; [cbn in Hfuel; lia | reflexivity].
  - destruct fuel as [|fuel]; [cbn in Hfuel; lia | destruct b; reflexivity].
  - destruct fuel as [|fuel]; [cbn in Hfuel; lia|].
    change (json_text (VNumber n)) with (NumberToString n).
    rewrite <- (parse_number_text n rest Hv Hd).
    destruct (number_text_head n) as (c & r & Ht & Hc). rewrite Ht.
    apply parse_value_number, Hc.
  - destruct fuel as [|fuel]; [cbn in Hfuel; lia|].
    change (json_text (VString s) ++ rest)
      with (String "034" ((quote_chars s ++ dq) ++ rest)).
    rewrite append_assoc.
    change (parse_value (S fuel) (String "034" ?r))
      with (parsed_map VString (read_string r)).
    rewrite read_string_quoted. reflexivity.
  - rewrite fuel_of_array in Hfuel.
    destruct fuel as [|fuel]; [lia|].
    rewrite json_text_array.
    destruct items as [|x l]; [reflexivity|].
    destruct (text_head x) as (c & r & Ht & Hc).
    { rewrite json_value_array in Hv. apply andb_true_iff in Hv. apply Hv. }
    change (elements_text true (x :: l)) with (json_text x ++ elements_text false l).
    cbn [append]. rewrite !append_assoc.
    change (elements_text false l ++ "]" ++ rest)
      with (elements_text false l ++ String "]" rest).
    pose proof (parse_elements_text x l IH Hv fuel rest) as Hel.
    rewrite Ht in *. cbn [append] in *.
    rewrite (parse_array_step fuel c _ Hc), Hel by lia. reflexivity.
  - rewrite fuel_of_object in Hfuel.
    destruct fuel as [|fuel]; [lia|].
    rewrite json_text_object.
    destruct props as [|[k x] l]; [reflexivity|].
    pose proof (json_value_object _ _ _ Hv) as [Hx _].
    cbn [append]. rewrite append_assoc.
    change ("}" ++ rest) with (String "}" rest).
    rewrite (members_text_cons true k x l _ Hx). cbn [append].
    pose proof (parse_members_text k x l IH Hv fuel rest) as Hm.
    unfold member_text in *.
    change (parse_value (S fuel) (String "{" (String "034" ?r)))
      with (parsed_map build_object (parse_members fuel (String "034" r))).
    rewrite Hm by lia. cbn [parsed_map].
    rewrite (build_object_distinct _ (json_value_distinct _ Hv)). reflexivity.
Qed.

Lemma append_empty (s : string) : s ++ "" = s.
Proof. induction s as [|c s IH]; simpl; [reflexivity | rewrite IH; reflexivity]. Qed.

(** *** Fuel *)

Lemma elements_covered (l : list value) (first : bool) :
  Forall text_covers_fuel l ->
  json_value (VArray l) = true ->
  elements_fuel l <=
    String.length (elements_text first l) + (if first then 1 else 0).
Proof.
  revert first. induction l as [|x l IH]; intros first Hall Hv; [cbn; lia|].
  rewrite json_value_array in Hv. apply andb_true_iff in Hv. destruct Hv as [Hx Hl].
  inversion Hall as [|? ? Hcx Hcl]; subst.
  specialize (IH false Hcl Hl). specialize (Hcx Hx).
  destruct first; cbn [elements_fuel elements_text append String.length];
    rewrite !length_append; cbn [plus] in *; lia.
Qed.

Lemma members_covered (l : list (string * value)) (first : bool) :
  Forall (fun kv => text_covers_fuel (snd kv)) l ->
  json_value (VObject l) = true ->
  members_fuel l <=
    String.length (members_text first l) + (if first then 1 else 0).
Proof.
  revert first. induction l as [|[k x] l IH]; intros first Hall Hv; [cbn; lia|].
  apply json_value_object in Hv. destruct Hv as [Hx Hl].
  inversion Hall as [|? ? Hcx Hcl]; subst. cbn [snd] in Hcx.
  specialize (IH false Hcl Hl). specialize (Hcx Hx).
  cbn [members_fuel members_text]. rewrite (stringify_defined x Hx).
  destruct first; cbn [append String.length];
    rewrite !length_append; cbn [String.length append plus] in *;
    rewrite ?length_append; lia.
Qed.

Lemma fuel_covered (v : value) : text_covers_fuel v.
Proof.
  induction v as [| |b|n|s|items IH|props IH] using value_ind'; intros Hv.
  - discriminate Hv.
  - cbn. lia.
  - destruct b; cbn; lia.
  - destruct (number_text_head n) as (c & r & Ht & _).
    change (json_text (VNumber n)) with (NumberToString n). rewrite Ht.
    cbn [fuel_of String.length]. lia.
  - change (json_text (VString s)) with (String "034" (quote_chars s ++ dq)).
    cbn [fuel_of String.length]. lia.
  - rewrite fuel_of_array, json_text_array. cbn [String.length].
    rewrite length_append. pose proof (elements_covered items true IH Hv) as H.
    cbn [String.length] in *. lia.
  - rewrite fuel_of_object, json_text_object. cbn [String.length].
    rewrite length_append. pose proof (members_covered props true IH Hv) as H.
    cbn [String.length] in *. lia.
Qed.

(** [JSON.parse(JSON.stringify(v))] is [v], for a value of JSON. *)
Lemma parse_stringify (v : value) :
  json_value v = true ->
  JSON_stringify v = Some (json_text v) /\
  JSON_parse (json_text v) = Some (Return v).
Proof.
  intros Hv. split; [apply stringify_defined, Hv|].
  unfold JSON_parse.
  pose proof (every_value_reads_back v Hv (S (String.length (json_text v))) ""
                (Nat.le_trans _ _ _ (fuel_covered v Hv) (Nat.le_succ_diag_r _)) eq_refl)
    as H.
  rewrite append_empty in H. rewrite H. reflexivity.
Qed.

Lemma truthy_json_argument (v : value) :
  json_argument v = true -> truthy v = true -> json_value v = true.
Proof. destruct v; auto; discriminate. Qed.

Lemma default_json_argument (v : value) :
  json_argument v = true -> json_value (default_param v VNull) = true.
Proof. destruct v; auto. Qed.

Lemma envelope_round_trip (id : value) (k : string) (body : value) :
  k = "result" \/ k = "error" ->
  json_argument id = true ->
  json_value body = true ->
  exists (text : string) (envelope : value),
    JSON_stringify (VObject [("jsonrpc", VString "2.0"); ("id", id); (k, body)]) =
      Some text /\
    JSON_parse text = Some (Return envelope) /\
    field envelope "id" = id /\
    xorb (has_field envelope "result") (has_field envelope "error") = true.
Proof.
  intros Hk Hid Hbody.
  destruct id as [| |b|n|s|items|props].
  1: { assert (Hv : json_value (VObject [("jsonrpc", VString "2.0"); (k, body)]) = true).
       { destruct Hk as [-> | ->]; cbn [json_value map fst distinct existsb String.eqb
           Ascii.eqb Bool.eqb orb negb andb]; rewrite Hbody; reflexivity. }
       destruct (parse_stringify _ Hv) as [Hs Hp].
       exists (json_text (VObject [("jsonrpc", VString "2.0"); (k, body)])).
       exists (VObject [("jsonrpc", VString "2.0"); (k, body)]).
       split; [exact Hs|]. split; [exact Hp|].
       destruct Hk as [-> | ->]; split; reflexivity. }
  all: match goal with
       | |- context [("id", ?i)] =>
           assert (Hv : json_value (VObject [("jsonrpc", VString "2.0"); ("id", i);
                                             (k, body)]) = true);
           [ destruct Hk as [-> | ->];
             cbn [json_value map fst distinct existsb String.eqb
                  Ascii.eqb Bool.eqb orb negb andb];
             cbn [json_argument] in Hid; cbn [json_value] in Hid;
             rewrite ?Hid, Hbody; reflexivity
           | destruct (parse_stringify _ Hv) as [Hs Hp];
             eexists; eexists; split; [exact Hs|]; split; [exact Hp|];
             destruct Hk as [-> | ->]; split; reflexivity ]
       end.
Qed.



(** The round trip on the answers of the dispatcher: the frame of a
    tools/list answer parses back to the answer. *)
Example tools_list_answer_round_trip :
  JSON_parse (json_text (result_response (VNumber 3) (VObject [("tools", TOOLS)]))) =
    Some (Return (result_response (VNumber 3) (VObject [("tools", TOOLS)]))).
Proof. vm_compute. reflexivity. Qed.
